(** * Adaptive workload controller: a shallow embedding of [Adaptiveworkload.py]

    The Flask handlers of the controller mutate two module globals
    ([REQUEST_LOG], [LAST_SCALING_TIME]), read the wall clock, talk to the
    EC2 client and write to a logger.  All of that is threaded through an
    explicit [World]; handlers are computations in a state-and-exception
    monad [M] over it.

    Numbers.  A [datetime] is its count of microseconds (the resolution of
    [datetime.now()]) as a [Z]; a [timedelta] is a difference of two such
    counts.  [total_seconds()] and the arrival rate are Python floats; they
    are modelled as exact rationals [Q].  The two comparisons of
    [total_seconds()] against the integers 60 and 0 are exact on floats as
    well (rounding is monotone and both bounds are representable).
    [round] does depend on the binary representation of its argument: it is
    modelled on the double nearest to the rational it is given, see
    [to_double].  The float the code hands to [round] is the result of a
    float division by a float [total_seconds()]; it is that double or a
    neighbour of it. *)

From Stdlib Require Import ZArith QArith Qround List String Bool Lia Arith.
From ExtLib Require Import Structures.Monad Structures.MonadExc.
Import ListNotations.
Import MonadNotation.
Local Open Scope monad_scope.
Local Open Scope Z_scope.

(** ** Configuration *)

Definition THRESHOLD_T1 : Z := 5.
Definition THRESHOLD_T2 : Z := 10.
Definition HYSTERESIS : Z := 2.
Definition COOLDOWN_PERIOD : Z := 10.
Definition REQUEST_LOG_WINDOW : Z := 60.

Record InstanceGroup := mkGroup { arn : string; ids : list string }.

Definition alb_arn : string :=
  "arn:aws:elasticloadbalancing:ap-south-1:975050195505:loadbalancer/app/my-alb/12253abf01a627b6".

(** A Python dict iterates in insertion order: an association list. *)
Definition INSTANCE_GROUPS : list (string * InstanceGroup) :=
  [ ("small"%string,  mkGroup alb_arn ["i-0c57481c98da9fe7e"%string]);
    ("medium"%string, mkGroup alb_arn ["i-0adefdc2a894f3c7b"%string]);
    ("large"%string,  mkGroup alb_arn ["i-0b8e3663a1e20b934"%string]) ].

(** ** Time *)

Definition datetime := Z.
Definition timedelta := Z.

Definition microseconds_per_second : Z := 1000000.

(** [timedelta(seconds=s)] *)
Definition timedelta_seconds (s : Z) : timedelta := s * microseconds_per_second.

(** [td.total_seconds()] *)
Definition total_seconds (td : timedelta) : Q := td # 1000000.

(** ** Exceptions, the EC2 client, the logger *)

Inductive Exception :=
| ClientError (msg : string)
| IndexError (msg : string)
| ZeroDivisionError (msg : string).

Definition str (e : Exception) : string :=
  match e with ClientError m | IndexError m | ZeroDivisionError m => m end.

Inductive Call :=
| DescribeInstances (InstanceIds : list string)
| StartInstances (InstanceIds : list string)
| StopInstances (InstanceIds : list string).

(** What a call gives back.  Of a response only the path
    [['Reservations'][i]['Instances'][j]['State']['Name']] is ever read, so a
    response is the list of reservations, each the list of the state names of
    its instances. *)
Inductive Reply :=
| Response (Reservations : list (list string))
| Fault (e : Exception).

Record Exchange := mkExchange { request : Call; reply : Reply }.

Inductive Level := INFO | WARNING | ERROR.

Inductive Message :=
| AlreadyInState (instance_ids : list string) (current_state : string)
| CooldownActive
| StartedInstances (instance_ids : list string)
| StoppedInstances (instance_ids : list string)
| AwsApiError (e : string)
| RequestHandlingFailed (e : string)
| StatusCheckFailed (group : string) (e : string).

Record Entry := mkEntry { timestamp : datetime }.

(** ** The world *)

(** [clock k] is what the [k]-th call of [datetime.now()] returns and
    [ticks] counts the calls made so far.  [ec2_api h c] is the fleet
    controller's answer to call [c] after the exchanges [h]; [history] is
    the list of exchanges so far, oldest first.  Both oracles are arbitrary:
    theorems quantify over every world. *)
Record World := mkWorld {
  REQUEST_LOG : list Entry;
  LAST_SCALING_TIME : option datetime;
  ticks : nat;
  clock : nat -> datetime;
  history : list Exchange;
  ec2_api : list Exchange -> Call -> Reply;
  logged : list (Level * Message)
}.

Inductive Result (A : Type) :=
| Ok (a : A)
| Raise (e : Exception).
Arguments Ok {A} a.
Arguments Raise {A} e.

Definition M (A : Type) : Type := World -> Result A * World.

#[global] Instance Monad_M : Monad M :=
  {| ret := fun _ a w => (Ok a, w);
     bind := fun _ _ m k w =>
       match m w with
       | (Ok a, w') => k a w'
       | (Raise e, w') => (Raise e, w')
       end |}.

(** A Python exception leaves every mutation made before it in place. *)
#[global] Instance MonadExc_M : MonadExc Exception M :=
  {| raise := fun _ e w => (Raise e, w);
     catch := fun _ m h w =>
       match m w with
       | (Ok a, w') => (Ok a, w')
       | (Raise e, w') => h e w'
       end |}.

Definition datetime_now : M datetime := fun w =>
  (Ok (clock w (ticks w)),
   mkWorld (REQUEST_LOG w) (LAST_SCALING_TIME w) (S (ticks w)) (clock w)
           (history w) (ec2_api w) (logged w)).

Definition get_REQUEST_LOG : M (list Entry) := fun w => (Ok (REQUEST_LOG w), w).

Definition set_REQUEST_LOG (l : list Entry) : M unit := fun w =>
  (Ok tt,
   mkWorld l (LAST_SCALING_TIME w) (ticks w) (clock w)
           (history w) (ec2_api w) (logged w)).

Definition get_LAST_SCALING_TIME : M (option datetime) := fun w =>
  (Ok (LAST_SCALING_TIME w), w).

Definition set_LAST_SCALING_TIME (t : option datetime) : M unit := fun w =>
  (Ok tt,
   mkWorld (REQUEST_LOG w) t (ticks w) (clock w)
           (history w) (ec2_api w) (logged w)).

Definition logger (lvl : Level) (msg : Message) : M unit := fun w =>
  (Ok tt,
   mkWorld (REQUEST_LOG w) (LAST_SCALING_TIME w) (ticks w) (clock w)
           (history w) (ec2_api w) (logged w ++ [(lvl, msg)])).

(** One blocking call of the EC2 client: the exchange is recorded, a fault
    is raised as a Python exception. *)
Definition ec2 (c : Call) : M (list (list string)) := fun w =>
  let r := ec2_api w (history w) c in
  let w' := mkWorld (REQUEST_LOG w) (LAST_SCALING_TIME w) (ticks w) (clock w)
                    (history w ++ [mkExchange c r]) (ec2_api w) (logged w) in
  match r with
  | Response rs => (Ok rs, w')
  | Fault e => (Raise e, w')
  end.

(** [response['Reservations'][0]['Instances'][0]['State']['Name']] *)
Definition first_state_name (response : list (list string)) : M string :=
  match response with
  | [] => raise (IndexError "list index out of range")
  | instances :: _ =>
      match instances with
      | [] => raise (IndexError "list index out of range")
      | name :: _ => ret name
      end
  end.

(** ** [manage_instances] *)

Definition manage_instances (operation : string) (instance_ids : list string)
  : M unit :=
  catch
    (response <- ec2 (DescribeInstances instance_ids) ;;
     current_state <- first_state_name response ;;
     if ((operation =? "start") && (current_state =? "running")
         || (operation =? "stop") && (current_state =? "stopped"))%string
     then logger INFO (AlreadyInState instance_ids current_state)
     else
       last <- get_LAST_SCALING_TIME ;;
       cooling <- match last with
                  | None => ret false
                  | Some t =>
                      now <- datetime_now ;;
                      ret (now - t <? timedelta_seconds COOLDOWN_PERIOD)
                  end ;;
       if (cooling : bool)
       then logger WARNING CooldownActive
       else
         (if (operation =? "start")%string then
            ec2 (StartInstances instance_ids) ;;
            logger INFO (StartedInstances instance_ids)
          else if (operation =? "stop")%string then
            ec2 (StopInstances instance_ids) ;;
            logger INFO (StoppedInstances instance_ids)
          else ret tt) ;;
         now <- datetime_now ;;
         set_LAST_SCALING_TIME (Some now))
    (fun e => logger ERROR (AwsApiError (str e)) ;; raise e).

(** ** [calculate_arrival_rate] *)

(** Float division [a / b]; Python raises on a zero divisor. *)
Definition truediv (a b : Q) : M Q :=
  if Qeq_bool b 0 then raise (ZeroDivisionError "float division by zero")
  else ret (a / b)%Q.

(** [l[0]] and [l[-1]] *)
Definition getitem_first {A} (l : list A) : M A :=
  match l with
  | [] => raise (IndexError "list index out of range")
  | x :: _ => ret x
  end.

Definition getitem_last {A} (l : list A) : M A :=
  match rev l with
  | [] => raise (IndexError "list index out of range")
  | x :: _ => ret x
  end.

(** The test of the pruning comprehension. *)
Definition in_window (now : datetime) (entry : Entry) : bool :=
  Qle_bool (total_seconds (now - timestamp entry)) (inject_Z REQUEST_LOG_WINDOW).

Definition prune (now : datetime) (log : list Entry) : list Entry :=
  filter (in_window now) log.

Definition calculate_arrival_rate : M Q :=
  now <- datetime_now ;;
  log <- get_REQUEST_LOG ;;
  set_REQUEST_LOG (prune now log) ;;
  log <- get_REQUEST_LOG ;;
  if (List.length log <? 2)%nat then ret 0%Q
  else
    newest <- getitem_last log ;;
    oldest <- getitem_first log ;;
    let time_span := total_seconds (timestamp newest - timestamp oldest) in
    if negb (Qle_bool time_span 0)
    then truediv (inject_Z (Z.of_nat (List.length log))) time_span
    else ret 0%Q.

(** ** [choose_target_group] *)

Definition choose_target_group (arrival_rate : Q) : string :=
  if Qle_bool arrival_rate (inject_Z (THRESHOLD_T1 - HYSTERESIS)) then "small"
  else if Qle_bool arrival_rate (inject_Z (THRESHOLD_T2 - HYSTERESIS)) then "medium"
  else "large".

(** ** The two routes *)

(** The integer nearest to [x], ties to even. *)
Definition round_half_even (x : Q) : Z :=
  let f := Qfloor x in
  match Qcompare (x - inject_Z f) (1 # 2) with
  | Lt => f
  | Gt => f + 1
  | Eq => if Z.even f then f else f + 1
  end.

(** The exponent [e] with [2^e <= x < 2^(e+1)], for [0 < x]. *)
Definition binary_exponent (x : Q) : Z :=
  let l := Z.log2 (Qnum x) - Z.log2 (Zpos (Qden x)) in
  if Qle_bool (Qpower 2 l) x then l else l - 1.

(** A Python float is a binary64 number: 53 significant bits, ties to
    even.  [to_double x] is the float nearest to [x], as the rational it
    is.  Overflow and subnormal numbers are left out: the rates of this
    program lie between [1/60] and [10^6] times the length of the log. *)
Definition to_double (x : Q) : Q :=
  match Qnum x with
  | 0 => 0
  | _ =>
    let a := Z.abs (Qnum x) # Qden x in
    let ulp := Qpower 2 (binary_exponent a - 52) in
    let y := (inject_Z (round_half_even (a / ulp)) * ulp)%Q in
    if Qnum x <? 0 then (- y)%Q else y
  end.

(** [round(x, ndigits)] of a float: the decimal with [ndigits] places
    nearest to the float's exact binary value, ties to even (CPython
    rounds the correctly rounded decimal expansion of the double, so
    [round(0.075, 2)] is [0.07]: the double written [0.075] lies below
    it).  The float returned is named by that decimal, which is also how
    it is printed in the JSON body as long as the decimal has at most
    fifteen significant digits. *)
Definition round (x : Q) (ndigits : nat) : Q :=
  let scale := inject_Z (10 ^ Z.of_nat ndigits) in
  (inject_Z (round_half_even (to_double x * scale)) / scale)%Q.

(** The JSON bodies the routes answer with. *)
Inductive Body :=
| Success (target_group : string) (arrival_rate : Q)
| Failed (message : string)
| Metrics (active_groups : list string) (arrival_rate : Q).

(** [for x in xs: body(x)]: an exception leaves the loop. *)
Fixpoint for_each {A} (xs : list A) (body : A -> M unit) : M unit :=
  match xs with
  | [] => ret tt
  | x :: rest => body x ;; for_each rest body
  end.

Definition reconcile (target_group : string) (g : string * InstanceGroup)
  : M unit :=
  let (group, cfg) := g in
  if (group =? target_group)%string
  then manage_instances "start" (ids cfg)
  else manage_instances "stop" (ids cfg).

Definition handle_request : M (Body * Z) :=
  catch
    (now <- datetime_now ;;
     log <- get_REQUEST_LOG ;;
     set_REQUEST_LOG (log ++ [mkEntry now]) ;;
     arrival_rate <- calculate_arrival_rate ;;
     let target_group := choose_target_group arrival_rate in
     for_each INSTANCE_GROUPS (reconcile target_group) ;;
     ret (Success target_group (round arrival_rate 2), 200))
    (fun e =>
       logger ERROR (RequestHandlingFailed (str e)) ;;
       ret (Failed (str e), 500)).

Fixpoint status_checks (groups : list (string * InstanceGroup))
                       (active_groups : list string) : M (list string) :=
  match groups with
  | [] => ret active_groups
  | (group, cfg) :: rest =>
      active_groups <-
        catch
          (response <- ec2 (DescribeInstances (ids cfg)) ;;
           state <- first_state_name response ;;
           if (state =? "running")%string
           then ret (active_groups ++ [group])
           else ret active_groups)
          (fun e =>
             logger ERROR (StatusCheckFailed group (str e)) ;;
             ret active_groups) ;;
      status_checks rest active_groups
  end.

Definition get_metrics : M Body :=
  active_groups <- status_checks INSTANCE_GROUPS [] ;;
  arrival_rate <- calculate_arrival_rate ;;
  ret (Metrics active_groups (round arrival_rate 2)).


(** * Vocabulary of the statements *)

(** ** The selector and the window *)

(** The two cut-over points of the selector. *)
Definition low_cutover : Q := inject_Z (THRESHOLD_T1 - HYSTERESIS).
Definition high_cutover : Q := inject_Z (THRESHOLD_T2 - HYSTERESIS).

(** Age of a window entry at time [now], and the window length. *)
Definition age (now : datetime) (entry : Entry) : timedelta :=
  now - timestamp entry.

Definition window_length : timedelta := timedelta_seconds REQUEST_LOG_WINDOW.

Definition cooldown : timedelta := timedelta_seconds COOLDOWN_PERIOD.

(** [Subsequence k l]: [k] is [l] with some entries left out, the others
    in their order. *)
Inductive Subsequence {A} : list A -> list A -> Prop :=
| sub_nil : Subsequence [] []
| sub_keep x k l : Subsequence k l -> Subsequence (x :: k) (x :: l)
| sub_drop x k l : Subsequence k l -> Subsequence k (x :: l).

(** Insertion order is time order. *)
Fixpoint time_ordered (log : list Entry) : Prop :=
  match log with
  | [] => True
  | e :: rest =>
      Forall (fun e' => timestamp e <= timestamp e') rest /\ time_ordered rest
  end.

(** Time between the oldest (first) and the newest (last) entry. *)
Definition span (log : list Entry) : timedelta :=
  timestamp (last log (mkEntry 0)) - timestamp (hd (mkEntry 0) log).

(** The rate the estimator reports for a pruned window. *)
Definition estimate (kept : list Entry) : Q :=
  if (List.length kept <? 2)%nat then 0%Q
  else if 0 <? span kept
       then (inject_Z (Z.of_nat (List.length kept)) / total_seconds (span kept))%Q
       else 0%Q.

(** The world after a rate computation that retained [kept]. *)
Definition pruned (w : World) (kept : list Entry) : World :=
  mkWorld kept (LAST_SCALING_TIME w) (S (ticks w)) (clock w)
          (history w) (ec2_api w) (logged w).

(** ** Reading a run of the actuator *)

(** The state name the actuator reads off a describe reply. *)
Definition state_of (r : Reply) : Result string :=
  match r with
  | Response ((name :: _) :: _) => Ok name
  | Response _ => Raise (IndexError "list index out of range")
  | Fault e => Raise e
  end.

(** The describe exchange a reconciliation of [instance_ids] opens with. *)
Definition describe_exchange (w : World) (instance_ids : list string) : Exchange :=
  mkExchange (DescribeInstances instance_ids)
             (ec2_api w (history w) (DescribeInstances instance_ids)).

Definition observed_state (w : World) (instance_ids : list string) : Result string :=
  state_of (reply (describe_exchange w instance_ids)).

(** The observed state is already the one the operation asks for. *)
Definition desired (operation current_state : string) : Prop :=
  (operation = "start" /\ current_state = "running")%string
  \/ (operation = "stop" /\ current_state = "stopped")%string.

(** The fleet call an operation stands for. *)
Definition action_of (operation : string) (instance_ids : list string) : option Call :=
  if (operation =? "start")%string then Some (StartInstances instance_ids)
  else if (operation =? "stop")%string then Some (StopInstances instance_ids)
  else None.

Definition done_message (operation : string) (instance_ids : list string) : Message :=
  if (operation =? "start")%string then StartedInstances instance_ids
  else StoppedInstances instance_ids.

(** [w] with the cooldown timestamp, the number of clock readings, the
    exchanges and what was logged brought up to date. *)
Definition after (w : World) (last : option datetime) (k : nat)
                 (h : list Exchange) (msgs : list (Level * Message)) : World :=
  mkWorld (REQUEST_LOG w) last k (clock w) h (ec2_api w) (logged w ++ msgs).

(** The cooldown gate lets a transition through: no transition was ever
    performed (no clock reading is made), or the reading made for the gate
    is at least the cooldown after the last one.  [k] is the number of
    clock readings made once the gate is passed. *)
Inductive gate_open (w : World) : nat -> Prop :=
| gate_never : LAST_SCALING_TIME w = None -> gate_open w (ticks w)
| gate_elapsed t :
    LAST_SCALING_TIME w = Some t ->
    cooldown <= clock w (ticks w) - t ->
    gate_open w (S (ticks w)).

(** The ways one run of [manage_instances] can go, each with its result
    and the world it leaves. *)
Inductive Managed (operation : string) (instance_ids : list string) (w : World)
  : Result unit -> World -> Prop :=
| observe_failed e :
    observed_state w instance_ids = Raise e ->
    Managed operation instance_ids w (Raise e)
      (after w (LAST_SCALING_TIME w) (ticks w)
             (history w ++ [describe_exchange w instance_ids])
             [(ERROR, AwsApiError (str e))])
| already current_state :
    observed_state w instance_ids = Ok current_state ->
    desired operation current_state ->
    Managed operation instance_ids w (Ok tt)
      (after w (LAST_SCALING_TIME w) (ticks w)
             (history w ++ [describe_exchange w instance_ids])
             [(INFO, AlreadyInState instance_ids current_state)])
| cooling current_state t :
    observed_state w instance_ids = Ok current_state ->
    ~ desired operation current_state ->
    LAST_SCALING_TIME w = Some t ->
    clock w (ticks w) - t < cooldown ->
    Managed operation instance_ids w (Ok tt)
      (after w (LAST_SCALING_TIME w) (S (ticks w))
             (history w ++ [describe_exchange w instance_ids])
             [(WARNING, CooldownActive)])
| performed current_state k a rs :
    observed_state w instance_ids = Ok current_state ->
    ~ desired operation current_state ->
    gate_open w k ->
    action_of operation instance_ids = Some a ->
    ec2_api w (history w ++ [describe_exchange w instance_ids]) a = Response rs ->
    Managed operation instance_ids w (Ok tt)
      (after w (Some (clock w k)) (S k)
             (history w ++ [describe_exchange w instance_ids;
                            mkExchange a (Response rs)])
             [(INFO, done_message operation instance_ids)])
| action_failed current_state k a e :
    observed_state w instance_ids = Ok current_state ->
    ~ desired operation current_state ->
    gate_open w k ->
    action_of operation instance_ids = Some a ->
    ec2_api w (history w ++ [describe_exchange w instance_ids]) a = Fault e ->
    Managed operation instance_ids w (Raise e)
      (after w (LAST_SCALING_TIME w) k
             (history w ++ [describe_exchange w instance_ids;
                            mkExchange a (Fault e)])
             [(ERROR, AwsApiError (str e))])
| no_such_operation current_state k :
    observed_state w instance_ids = Ok current_state ->
    ~ desired operation current_state ->
    gate_open w k ->
    action_of operation instance_ids = None ->
    Managed operation instance_ids w (Ok tt)
      (after w (Some (clock w k)) (S k)
             (history w ++ [describe_exchange w instance_ids])
             []).

(** ** Counting transitions *)

(** The exchanges made between two worlds of one run. *)
Definition since (w w' : World) : list Exchange :=
  skipn (List.length (history w)) (history w').

Definition is_transition (x : Exchange) : bool :=
  match request x with
  | StartInstances _ | StopInstances _ => true
  | DescribeInstances _ => false
  end.

Definition succeeded (x : Exchange) : bool :=
  match reply x with
  | Response _ => true
  | Fault _ => false
  end.

Definition instance_ids_of (c : Call) : list string :=
  match c with
  | DescribeInstances i | StartInstances i | StopInstances i => i
  end.

Definition same_ids (a b : list string) : bool :=
  if list_eq_dec string_dec a b then true else false.

(** Start and stop calls issued to the fleet controller. *)
Definition transitions_issued (w w' : World) : nat :=
  List.length (filter is_transition (since w w')).

(** Start and stop calls the fleet controller accepted: transitions
    performed. *)
Definition transitions_performed (w w' : World) : nat :=
  List.length (filter (fun x => is_transition x && succeeded x) (since w w')).

(** The same for the instances of one tier. *)
Definition tier_transitions_performed (cfg : InstanceGroup) (w w' : World) : nat :=
  List.length
    (filter (fun x => is_transition x && succeeded x
                      && same_ids (instance_ids_of (request x)) (ids cfg))
            (since w w')).

(** ** The cooldown *)

(** [w'] is a later world of the run that started in [w]: same oracles,
    more clock readings made, more exchanges recorded. *)
Record extends (w w' : World) : Prop := mkExtends {
  same_clock : clock w' = clock w;
  same_api : ec2_api w' = ec2_api w;
  more_ticks : (ticks w <= ticks w')%nat;
  more_history : exists seg, history w' = history w ++ seg
}.

(** Every clock reading made from [w] up to [w'] is less than [d] after
    every other one. *)
Definition readings_within (d : timedelta) (w w' : World) : Prop :=
  forall i j : nat,
    (ticks w <= i < ticks w')%nat -> (ticks w <= j < ticks w')%nat ->
    clock w i - clock w j < d.

(** Every clock reading made from [w1] up to [w2] is more than [d] after
    every reading made from [w] up to [w1]. *)
Definition readings_apart (d : timedelta) (w w1 w2 : World) : Prop :=
  forall i j : nat,
    (ticks w <= i < ticks w1)%nat -> (ticks w1 <= j < ticks w2)%nat ->
    d < clock w j - clock w i.

(** Every clock reading made from [w] up to [w'] is at most [d] after
    every other one. *)
Definition readings_at_most (d : timedelta) (w w' : World) : Prop :=
  forall i j : nat,
    (ticks w <= i < ticks w')%nat -> (ticks w <= j < ticks w')%nat ->
    clock w i - clock w j <= d.

(** [LAST_SCALING_TIME] holds a clock reading made since [w0]. *)
Definition stamped_since (w0 w : World) : Prop :=
  exists k : nat,
    (ticks w0 <= k < ticks w)%nat /\ LAST_SCALING_TIME w = Some (clock w0 k).

(** Start and stop calls issued after the first performed transition of a
    stretch of exchanges. *)
Fixpoint issued_after_performed (seg : list Exchange) : nat :=
  match seg with
  | [] => 0%nat
  | x :: rest =>
      if is_transition x && succeeded x
      then List.length (filter is_transition rest)
      else issued_after_performed rest
  end.

(** The cooldown invariant of a run from [w0]: while all readings stay
    within the cooldown of one another at most one transition has been
    performed, and once it has the timestamp is one of those readings and
    no start or stop call has been issued since. *)
Definition Cool (w0 w : World) : Prop :=
  extends w0 w
  /\ (readings_within cooldown w0 w ->
      transitions_performed w0 w = 0%nat
      \/ (transitions_performed w0 w = 1%nat
          /\ stamped_since w0 w
          /\ issued_after_performed (since w0 w) = 0%nat)).

(** The same for the calls issued inside one decision cycle, which a
    raised error ends. *)
Definition Calm (w0 : World) (r : Result unit) (w : World) : Prop :=
  extends w0 w
  /\ (readings_within cooldown w0 w ->
      transitions_issued w0 w = 0%nat
      \/ (transitions_issued w0 w = 1%nat
          /\ (stamped_since w0 w \/ exists e, r = Raise e))).

(** ** Reading a decision cycle *)

(** The world of a decision cycle begun in [w] once the event is recorded
    (first clock reading) and the rate computed (second reading). *)
Definition entering (w : World) : World :=
  mkWorld (prune (clock w (S (ticks w)))
                 (REQUEST_LOG w ++ [mkEntry (clock w (ticks w))]))
          (LAST_SCALING_TIME w) (S (S (ticks w))) (clock w)
          (history w) (ec2_api w) (logged w).

Definition cycle_rate (w : World) : Q := estimate (REQUEST_LOG (entering w)).

Definition cycle_target (w : World) : string := choose_target_group (cycle_rate w).

(** What a reconciliation that returns normally logs for a tier: the
    cooldown skip, or for the target tier that it was already running or
    has been started, for any other tier that it was already stopped or
    has been stopped. *)
Definition outcome_of (target_group : string) (g : string * InstanceGroup)
                      (o : Level * Message) : Prop :=
  o = (WARNING, CooldownActive)
  \/ (if (fst g =? target_group)%string
      then o = (INFO, AlreadyInState (ids (snd g)) "running")
           \/ o = (INFO, StartedInstances (ids (snd g)))
      else o = (INFO, AlreadyInState (ids (snd g)) "stopped")
           \/ o = (INFO, StoppedInstances (ids (snd g)))).

(** ** Reading a status query *)

(** The describe exchanges a status query makes, tier by tier, each
    answered after the ones before it. *)
Fixpoint polls (api : list Exchange -> Call -> Reply) (h : list Exchange)
               (groups : list (string * InstanceGroup))
  : list (string * Exchange) :=
  match groups with
  | [] => []
  | (group, cfg) :: rest =>
      let x := mkExchange (DescribeInstances (ids cfg))
                          (api h (DescribeInstances (ids cfg))) in
      (group, x) :: polls api (h ++ [x]) rest
  end.

Definition reports_running (p : string * Exchange) : bool :=
  match state_of (reply (snd p)) with
  | Ok name => (name =? "running")%string
  | Raise _ => false
  end.

Definition poll_message (p : string * Exchange) : list (Level * Message) :=
  match state_of (reply (snd p)) with
  | Ok _ => []
  | Raise e => [(ERROR, StatusCheckFailed (fst p) (str e))]
  end.

(** ** Runs of the service *)

(** The two routes of the application; a run serves a list of them, one
    after the other. *)
Inductive Route := send_request | metrics.

Definition serve (route : Route) (w : World) : World :=
  match route with
  | send_request => snd (handle_request w)
  | metrics => snd (get_metrics w)
  end.

Definition serve_all (routes : list Route) (w : World) : World :=
  fold_left (fun v route => serve route v) routes w.

(** ** Sample fleets and worlds *)

(** Concrete fleets and worlds on which the statements are exercised. *)
Module Sample.

Definition small_ids : list string := ["i-0c57481c98da9fe7e"%string].
Definition medium_ids : list string := ["i-0adefdc2a894f3c7b"%string].
Definition large_ids : list string := ["i-0b8e3663a1e20b934"%string].

Definition small_tier : InstanceGroup := mkGroup alb_arn small_ids.
Definition medium_tier : InstanceGroup := mkGroup alb_arn medium_ids.
Definition large_tier : InstanceGroup := mkGroup alb_arn large_ids.

(** A fleet that reports every instance stopped and accepts every call. *)
Definition all_stopped (h : list Exchange) (c : Call) : Reply :=
  Response [["stopped"%string]].

(** A fleet in which exactly the instances [up] run, whatever is asked of
    it; it accepts every start and stop call. *)
Definition only_running (up : list string) (h : list Exchange) (c : Call) : Reply :=
  match c with
  | DescribeInstances i =>
      if same_ids i up then Response [["running"%string]]
      else Response [["stopped"%string]]
  | _ => Response []
  end.

(** A fleet in which exactly the instance sets listed in [ups] run,
    whatever is asked of it. *)
Definition fleet_running (ups : list (list string)) (h : list Exchange) (c : Call)
  : Reply :=
  match c with
  | DescribeInstances i =>
      if existsb (same_ids i) ups then Response [["running"%string]]
      else Response [["stopped"%string]]
  | _ => Response []
  end.

(** A fleet in which [up] runs and every start or stop call is refused. *)
Definition refusing (up : list string) (h : list Exchange) (c : Call) : Reply :=
  match c with
  | DescribeInstances i => only_running up h c
  | _ => Fault (ClientError "UnauthorizedOperation")
  end.

(** A fleet whose describe call fails for [down], shows [up] running and
    everything else stopped. *)
Definition flaky (down up : list string) (h : list Exchange) (c : Call) : Reply :=
  match c with
  | DescribeInstances i =>
      if same_ids i down then Fault (ClientError "RequestTimeout")
      else only_running up h c
  | _ => Response []
  end.

(** A world at the start of a process: empty window, no transition yet,
    every clock reading [now]. *)
Definition fresh_world (api : list Exchange -> Call -> Reply) (now : datetime) : World :=
  mkWorld [] None 0%nat (fun _ => now) [] api [].

(** A single request in the window. *)
Definition one_request_world : World :=
  mkWorld [mkEntry 5] None 0%nat (fun _ => 7) [] all_stopped [].

(** Two requests one second apart, looked at when the second arrives. *)
Definition two_requests_world : World :=
  mkWorld [mkEntry 0; mkEntry 1000000] None 0%nat (fun _ => 1000000)
          [] all_stopped [].

(** A world whose window holds one entry older than the window length and
    one fresh entry. *)
Definition stale_world : World :=
  mkWorld [mkEntry 0; mkEntry (timedelta_seconds 70)] None 0%nat
          (fun _ => timedelta_seconds 75) [] all_stopped [].

(** A first request on a fleet whose medium tier is the one running. *)
Definition medium_active_world : World :=
  fresh_world (only_running medium_ids) 0.

(** A second request a tenth of a second after the first, on a fleet whose
    small tier is the one running. *)
Definition rising_load_world : World :=
  mkWorld [mkEntry 0] None 0%nat (fun _ => 100000) []
          (only_running small_ids) [].

(** A first request on a fleet whose medium tier is the one running and
    whose every clock reading comes eleven seconds after the one before. *)
Definition slow_world : World :=
  mkWorld [] None 0%nat (fun k => timedelta_seconds 11 * Z.of_nat k) []
          (only_running medium_ids) [].

(** Three clock readings at time 0, all later ones twenty seconds on. *)
Definition late_clock (k : nat) : datetime :=
  if (k <? 3)%nat then 0 else timedelta_seconds 20.

(** A first request at time 0 and a second one twenty seconds later, on a
    fleet that keeps showing [ups] running. *)
Definition two_spaced_cycles (ups : list (list string)) : World :=
  mkWorld [] None 0%nat late_clock [] (fleet_running ups) [].

(** A process just started, its small tier running, whose every clock
    reading comes a tenth of a second after the one before. *)
Definition burst_world : World :=
  mkWorld [] None 0%nat (fun k => 100000 * Z.of_nat k) []
          (only_running small_ids) [].

End Sample.

Import Sample.

(** ** Proof tools *)

(** Runs a monadic computation as far as its primitives go, leaving the
    pure functions of the model folded. *)
Ltac run :=
  cbn [bind ret raise catch Monad_M MonadExc_M
       datetime_now get_REQUEST_LOG set_REQUEST_LOG
       get_LAST_SCALING_TIME set_LAST_SCALING_TIME logger
       REQUEST_LOG LAST_SCALING_TIME ticks clock history ec2_api logged
       fst snd].

(** Splits conjunctions and nothing else. *)
Ltac conjs := repeat match goal with |- _ /\ _ => split end.

(** Names the result and final world of the actuator run in the goal and
    turns its equation into the case [spec] gives for it. *)
Ltac managed_by spec Hrun r w' :=
  match goal with
  | |- context [manage_instances ?op ?i ?w] =>
      destruct (manage_instances op i w) as [r w'] eqn:Hrun;
      apply spec in Hrun
  end.

(** * Further vocabulary *)

(** ** Tiers in order *)

(** Position of a group among the configured ones (their number when it
    is none of them). *)
Fixpoint position (group : string) (groups : list (string * InstanceGroup)) : nat :=
  match groups with
  | [] => 0%nat
  | (g, _) :: rest => if (g =? group)%string then 0%nat else S (position group rest)
  end.

Definition tier_index (group : string) : nat := position group INSTANCE_GROUPS.

(** ** Clocks and windows *)

(** The wall clock never goes back. *)
Definition clock_monotone (w : World) : Prop :=
  forall i j : nat, (i <= j)%nat -> clock w i <= clock w j.

(** No entry of a window is later than [now]. *)
Definition none_later (now : datetime) (log : list Entry) : Prop :=
  Forall (fun e => timestamp e <= now) log.

(** The window is in time order and holds nothing later than the next
    clock reading. *)
Definition window_sound (w : World) : Prop :=
  time_ordered (REQUEST_LOG w) /\ none_later (clock w (ticks w)) (REQUEST_LOG w).

(** ** The actuator *)


(** The exchange is the one that made the run raise [e]: a describe whose
    reply has no first instance state to read or is an error, or a start
    or stop answered by an error. *)
Definition failed_with (e : Exception) (x : Exchange) : Prop :=
  match request x with
  | DescribeInstances _ => state_of (reply x) = Raise e
  | _ => reply x = Fault e
  end.

Definition healthy (x : Exchange) : Prop := forall e, ~ failed_with e x.

(** ** The decision cycle *)

(** The call is addressed to one of the configured groups; a start goes
    to the target group, a stop to another one. *)
Definition addressed (target_group : string) (x : Exchange) : Prop :=
  exists group cfg,
    In (group, cfg) INSTANCE_GROUPS
    /\ match request x with
       | DescribeInstances i => i = ids cfg
       | StartInstances i => i = ids cfg /\ group = target_group
       | StopInstances i => i = ids cfg /\ group <> target_group
       end.

(** The state in which a cycle with this target wants to see a group. *)
Definition wanted_state (target_group group : string) : string :=
  if (group =? target_group)%string then "running" else "stopped".

(** What is logged for a group found in its wanted state. *)
Definition already_message (target_group : string) (g : string * InstanceGroup)
  : Level * Message :=
  (INFO, AlreadyInState (ids (snd g)) (wanted_state target_group (fst g))).

(** The cooldown timestamp follows the transitions performed since [w0]:
    untouched while there is none, a clock reading made since [w0] once
    there is one. *)
Definition Stamped (w0 w : World) : Prop :=
  extends w0 w
  /\ (transitions_performed w0 w = 0%nat ->
      LAST_SCALING_TIME w = LAST_SCALING_TIME w0)
  /\ ((0 < transitions_performed w0 w)%nat -> stamped_since w0 w).

(** ** Further sample worlds *)

Module Scenario.

(** Three requests ten seconds apart, looked at 65 s after the first and
    every ten seconds from then on. *)
Definition spaced_requests_world : World :=
  mkWorld [mkEntry 0; mkEntry (timedelta_seconds 10); mkEntry (timedelta_seconds 20)]
          None 0%nat
          (fun k => timedelta_seconds 65 + timedelta_seconds 10 * Z.of_nat k)
          [] all_stopped [].

(** A fleet that knows none of the instances: every describe reply comes
    back without a reservation. *)
Definition knows_nothing (h : list Exchange) (c : Call) : Reply := Response [].


(** A first request on a fleet whose small tier alone is running. *)
Definition settled_world : World := fresh_world (only_running small_ids) 0.

(** Three requests twenty seconds apart, looked at as the third comes
    in; every instance is stopped. *)
Definition three_in_forty_world : World :=
  mkWorld [mkEntry 0; mkEntry (timedelta_seconds 20); mkEntry (timedelta_seconds 40)]
          None 0%nat (fun _ => timedelta_seconds 40) [] all_stopped [].

(** The clock of two requests nine seconds apart: the first cycle reads
    0 s, 0 s and, stamping its transition, 0.5 s; the second reads 9 s
    twice and, by the time its first fetch has come back, 11 s. *)
Definition nine_seconds_clock (k : nat) : datetime :=
  nth k [0; 0; 500000; timedelta_seconds 9; timedelta_seconds 9;
         timedelta_seconds 11; timedelta_seconds 11]
      (timedelta_seconds 11).

(** A process just started, with that clock, on a fleet that keeps
    showing every instance stopped. *)
Definition nine_seconds_apart_world : World :=
  mkWorld [] None 0%nat nine_seconds_clock [] all_stopped [].

End Scenario.

Import Scenario.

(** * Properties *)

(** ** Target selection *)

Lemma choose_small (r : Q) :
  (r <= low_cutover)%Q -> choose_target_group r = "small"%string.
Proof.
  intros H. unfold choose_target_group. fold low_cutover.
  apply Qle_bool_iff in H. now rewrite H.
Qed.

Lemma choose_medium (r : Q) :
  (low_cutover < r)%Q -> (r <= high_cutover)%Q ->
  choose_target_group r = "medium"%string.
Proof.
  intros H1 H2. unfold choose_target_group. fold low_cutover high_cutover.
  destruct (Qle_bool r low_cutover) eqn:E.
  - apply Qle_bool_iff in E. exfalso. exact (Qlt_not_le _ _ H1 E).
  - apply Qle_bool_iff in H2. now rewrite H2.
Qed.

Lemma choose_large (r : Q) :
  (high_cutover < r)%Q -> choose_target_group r = "large"%string.
Proof.
  intros H. unfold choose_target_group. fold low_cutover high_cutover.
  assert (L : (low_cutover <= high_cutover)%Q) by (vm_compute; discriminate).
  destruct (Qle_bool r low_cutover) eqn:E1.
  - apply Qle_bool_iff in E1. exfalso.
    apply (Qlt_not_le _ _ H). now apply Qle_trans with low_cutover.
  - destruct (Qle_bool r high_cutover) eqn:E2; [|reflexivity].
    apply Qle_bool_iff in E2. exfalso. exact (Qlt_not_le _ _ H E2).
Qed.

(** C2.  The selector is a function of the rate alone (its type has no
    world in it) and every rate falls in exactly one of three bands: at
    most [T1 - H] gives small, above that and at most [T2 - H] gives
    medium, anything above gives large.  With the configured T1 = 5,
    T2 = 10, H = 2 the six sample rates 0, 3.0, 3.1, 8.0, 8.1 and 100 land
    on small, small, medium, medium, large, large. *)
Theorem C2_choose_target_group_bands :
  (forall r : Q,
      (r <= inject_Z (THRESHOLD_T1 - HYSTERESIS)
       /\ choose_target_group r = "small"%string)%Q
      \/ (inject_Z (THRESHOLD_T1 - HYSTERESIS) < r
          /\ r <= inject_Z (THRESHOLD_T2 - HYSTERESIS)
          /\ choose_target_group r = "medium"%string)%Q
      \/ (inject_Z (THRESHOLD_T2 - HYSTERESIS) < r
          /\ choose_target_group r = "large"%string)%Q)
  /\ (THRESHOLD_T1 = 5 /\ THRESHOLD_T2 = 10 /\ HYSTERESIS = 2)
  /\ choose_target_group 0 = "small"%string
  /\ choose_target_group 3 = "small"%string
  /\ choose_target_group (31 # 10) = "medium"%string
  /\ choose_target_group 8 = "medium"%string
  /\ choose_target_group (81 # 10) = "large"%string
  /\ choose_target_group 100 = "large"%string.
Proof.
  split; [|repeat split; reflexivity].
  intros r. fold low_cutover high_cutover.
  destruct (Qlt_le_dec low_cutover r) as [L1|L1].
  - destruct (Qlt_le_dec high_cutover r) as [L2|L2].
    + right; right. split; [assumption|]. now apply choose_large.
    + right; left. repeat split; try assumption. now apply choose_medium.
  - left. split; [assumption|]. now apply choose_small.
Qed.

(** ** The request window *)

Lemma in_window_age (now : datetime) (entry : Entry) :
  in_window now entry = (age now entry <=? window_length).
Proof.
  unfold in_window, age, window_length, total_seconds, Qle_bool.
  cbn [Qnum Qden inject_Z].
  unfold timedelta_seconds, REQUEST_LOG_WINDOW, microseconds_per_second.
  destruct (Z.leb_spec ((now - timestamp entry) * 1) (60 * 1000000));
    destruct (Z.leb_spec (now - timestamp entry) (60 * 1000000)); lia.
Qed.

Lemma prune_filter_age (now : datetime) (log : list Entry) :
  prune now log = filter (fun e => age now e <=? window_length) log.
Proof.
  unfold prune. apply filter_ext. intros e. apply in_window_age.
Qed.

Lemma filter_Subsequence {A} (f : A -> bool) (l : list A) :
  Subsequence (filter f l) l.
Proof.
  induction l as [|x l IH]; cbn.
  - constructor.
  - destruct (f x); now constructor.
Qed.

Lemma prune_retained (now : datetime) (log : list Entry) :
  Forall (fun e => age now e <= window_length) (prune now log).
Proof.
  rewrite prune_filter_age. apply Forall_forall. intros e He.
  apply filter_In in He. destruct He as [_ He]. now apply Z.leb_le.
Qed.

Lemma prune_all_fresh (now : datetime) (log : list Entry) :
  Forall (fun e => age now e <= window_length) log -> prune now log = log.
Proof.
  rewrite prune_filter_age.
  induction 1 as [|e l He _ IH]; cbn [filter]; [reflexivity|].
  apply Z.leb_le in He. rewrite He. now rewrite IH.
Qed.

(** On a window in time order, what pruning removes is a prefix. *)
Lemma prune_time_ordered (now : datetime) (log : list Entry) :
  time_ordered log ->
  exists n : nat,
    prune now log = skipn n log
    /\ Forall (fun e => window_length < age now e) (firstn n log).
Proof.
  induction log as [|e l IH]; intros Hord.
  - exists 0%nat. split; [reflexivity | constructor].
  - destruct Hord as [Hhd Htl].
    destruct (Z.leb_spec (age now e) window_length) as [Hfresh|Hold].
    + exists 0%nat. split; [|constructor].
      cbn [skipn]. apply prune_all_fresh. constructor; [assumption|].
      apply Forall_forall. intros e' He'.
      rewrite Forall_forall in Hhd. specialize (Hhd e' He').
      unfold age in *. lia.
    + destruct (IH Htl) as [n [Hn Hdrop]]. exists (S n). split.
      * rewrite prune_filter_age in *. cbn [filter skipn].
        apply Z.leb_gt in Hold. now rewrite Hold.
      * cbn [firstn]. now constructor.
Qed.

(** ** The rate estimator *)

Lemma rev_cons_last {A} (l r : list A) (x d : A) :
  rev l = x :: r -> last l d = x.
Proof.
  intros H. apply (f_equal (@rev A)) in H. rewrite rev_involutive in H.
  subst l. cbn. apply last_last.
Qed.

Lemma positive_span_test (s : timedelta) :
  negb (Qle_bool (total_seconds s) 0) = (0 <? s).
Proof.
  unfold total_seconds, Qle_bool. cbn [Qnum Qden].
  destruct (Z.leb_spec (s * 1) (0 * 1000000)); destruct (Z.ltb_spec 0 s);
    cbn; lia.
Qed.

Lemma positive_span_nonzero (s : timedelta) :
  0 < s -> Qeq_bool (total_seconds s) 0 = false.
Proof.
  intros H. destruct (Qeq_bool (total_seconds s) 0) eqn:E; [|reflexivity].
  apply Qeq_bool_eq in E. unfold total_seconds, Qeq in E.
  cbn [Qnum Qden] in E. lia.
Qed.

(** What one rate computation does: one clock reading, the window pruned
    against it, the estimate of what is retained; nothing is raised. *)
Lemma calculate_arrival_rate_run (w : World) :
  let kept := prune (clock w (ticks w)) (REQUEST_LOG w) in
  calculate_arrival_rate w = (Ok (estimate kept), pruned w kept).
Proof.
  intros kept. unfold calculate_arrival_rate, estimate. run. fold kept.
  destruct (List.length kept <? 2)%nat eqn:Hlen; [reflexivity|].
  apply Nat.ltb_ge in Hlen.
  unfold getitem_last, getitem_first, span.
  destruct (rev kept) as [|newest r] eqn:Hrev.
  { apply (f_equal (@List.length Entry)) in Hrev. rewrite length_rev in Hrev.
    cbn in Hrev. lia. }
  destruct kept as [|oldest rest] eqn:Hk; [cbn in Hlen; lia|].
  rewrite (rev_cons_last _ _ _ (mkEntry 0) Hrev).
  cbn [hd]. run.
  rewrite positive_span_test.
  destruct (Z.ltb_spec 0 (timestamp newest - timestamp oldest)) as [Hpos|Hneg];
    [|reflexivity].
  unfold truediv. rewrite (positive_span_nonzero _ Hpos). reflexivity.
Qed.

(** C5.  Every rate computation prunes the window against the clock
    reading [now] it starts with.  Afterwards every retained entry is at
    most the window length old; the retained entries are exactly the
    entries of the old window that are not older than the window length,
    each as often as before and in their old order; every removed entry is
    strictly older than every retained one; and on a window kept in time
    order the removed entries are a prefix, the oldest end. *)
Theorem C5_prune_removes_exactly_the_stale (w : World) :
  let now := clock w (ticks w) in
  let log := REQUEST_LOG w in
  let kept := REQUEST_LOG (snd (calculate_arrival_rate w)) in
  kept = prune now log
  /\ Forall (fun e => age now e <= window_length) kept
  /\ kept = filter (fun e => age now e <=? window_length) log
  /\ Subsequence kept log
  /\ (forall old e, In old log -> ~ In old kept -> In e kept ->
        window_length < age now old /\ timestamp old < timestamp e)
  /\ (time_ordered log ->
        exists n : nat,
          kept = skipn n log
          /\ log = firstn n log ++ kept
          /\ Forall (fun e => window_length < age now e) (firstn n log)).
Proof.
  intros now log kept.
  assert (Hk : kept = prune now log).
  { unfold kept. now rewrite calculate_arrival_rate_run. }
  split; [exact Hk|]. rewrite Hk.
  split; [apply prune_retained|].
  split; [apply prune_filter_age|].
  split; [apply filter_Subsequence|].
  split.
  - intros old e Hold Hnot He.
    assert (Ho : window_length < age now old).
    { apply Z.leb_gt. destruct (age now old <=? window_length) eqn:T; [|reflexivity].
      exfalso. apply Hnot. rewrite prune_filter_age. apply filter_In. now split. }
    split; [exact Ho|].
    pose proof (prune_retained now log) as R. rewrite Forall_forall in R.
    specialize (R e He). unfold age in *. lia.
  - intros Hord. destruct (prune_time_ordered now log Hord) as [n [Hn Hdrop]].
    exists n. repeat split; try assumption.
    rewrite Hn. symmetry. apply firstn_skipn.
Qed.

Lemma C5_prune_removes_exactly_the_stale_witness :
  let now := timedelta_seconds 75 in
  let log := [mkEntry 0; mkEntry (timedelta_seconds 70)] in
  time_ordered log
  /\ exists n : nat,
       REQUEST_LOG (snd (calculate_arrival_rate stale_world)) = skipn n log
       /\ log = firstn n log ++ REQUEST_LOG (snd (calculate_arrival_rate stale_world))
       /\ Forall (fun e => window_length < age now e) (firstn n log).
Proof.
  cbn zeta.
  assert (H : time_ordered [mkEntry 0; mkEntry (timedelta_seconds 70)]).
  { cbn. repeat split; repeat constructor. cbn. lia. }
  split; [exact H|].
  exact (proj2 (proj2 (proj2 (proj2 (proj2
           (C5_prune_removes_exactly_the_stale stale_world))))) H).
Defined.

(** C7.  The estimator always returns: no clock reading and no window
    makes it raise, a division by zero included.  When fewer than two
    entries are retained after pruning the rate is exactly 0, and when the
    newest and the oldest retained entries carry the same timestamp the
    rate is exactly 0 as well (the division is not attempted). *)
Theorem C7_rate_total_and_zero (w : World) :
  let kept := REQUEST_LOG (snd (calculate_arrival_rate w)) in
  exists rate : Q,
    fst (calculate_arrival_rate w) = Ok rate
    /\ ((List.length kept < 2)%nat -> rate = 0%Q)
    /\ (span kept = 0 -> rate = 0%Q)
    /\ (span kept <= 0 -> rate = 0%Q).
Proof.
  rewrite calculate_arrival_rate_run. cbn [fst snd pruned REQUEST_LOG].
  set (kept := prune _ _).
  exists (estimate kept). split; [reflexivity|].
  unfold estimate. repeat split.
  - intros H. apply Nat.ltb_lt in H. now rewrite H.
  - intros H. rewrite H. cbn [Z.ltb Z.compare].
    now destruct (List.length kept <? 2)%nat.
  - intros H. destruct (List.length kept <? 2)%nat; [reflexivity|].
    destruct (Z.ltb_spec 0 (span kept)); [lia|reflexivity].
Qed.

Lemma C7_rate_total_and_zero_witness :
  fst (calculate_arrival_rate one_request_world) = Ok 0%Q.
Proof.
  destruct (C7_rate_total_and_zero one_request_world) as [rate [Hr [H0 _]]].
  rewrite Hr. f_equal. apply H0. cbn. lia.
Defined.

(** C1 as amended.  With [n >= 2] entries retained after pruning and a
    strictly positive span between the oldest and the newest of them, the
    estimator returns exactly [n / span], the span in seconds: the number
    of retained entries, not the number of gaps between them. *)
Theorem C1_rate_is_count_over_span (w : World) :
  let kept := REQUEST_LOG (snd (calculate_arrival_rate w)) in
  (2 <= List.length kept)%nat ->
  0 < span kept ->
  fst (calculate_arrival_rate w)
  = Ok (inject_Z (Z.of_nat (List.length kept)) / total_seconds (span kept))%Q.
Proof.
  rewrite calculate_arrival_rate_run. cbn [fst snd pruned REQUEST_LOG].
  set (kept := prune _ _). intros Hn Hs.
  unfold estimate.
  apply Nat.ltb_ge in Hn. rewrite Hn.
  apply Z.ltb_lt in Hs. now rewrite Hs.
Qed.

Lemma C1_rate_is_count_over_span_witness :
  fst (calculate_arrival_rate two_requests_world)
  = Ok (inject_Z 2 / total_seconds (timedelta_seconds 1))%Q.
Proof.
  apply (C1_rate_is_count_over_span two_requests_world); cbn; lia.
Defined.

(** C1 as stated fails: two requests one second apart, both retained,
    give a rate of 2 per second where [(n - 1) / span] is 1. *)
Lemma C1_counterexample :
  let w := two_requests_world in
  let kept := REQUEST_LOG (snd (calculate_arrival_rate w)) in
  List.length kept = 2%nat
  /\ span kept = timedelta_seconds 1
  /\ fst (calculate_arrival_rate w)
     = Ok (inject_Z 2 / total_seconds (timedelta_seconds 1))%Q
  /\ ~ (exists rate : Q,
          fst (calculate_arrival_rate w) = Ok rate
          /\ (rate == (inject_Z (Z.of_nat (List.length kept)) - 1)
                       / total_seconds (span kept))%Q).
Proof.
  cbn zeta. rewrite calculate_arrival_rate_run.
  repeat split; try reflexivity.
  intros [rate [Hr Heq]]. cbn in Hr. injection Hr as <-.
  vm_compute in Heq. discriminate.
Qed.

(** ** The scaling actuator *)

Fact INSTANCE_GROUPS_tiers :
  INSTANCE_GROUPS
  = [("small"%string, small_tier); ("medium"%string, medium_tier);
     ("large"%string, large_tier)].
Proof. reflexivity. Qed.

Lemma desired_test (operation current_state : string) :
  ((operation =? "start") && (current_state =? "running")
   || (operation =? "stop") && (current_state =? "stopped"))%string = true
  <-> desired operation current_state.
Proof.
  unfold desired.
  rewrite orb_true_iff, !andb_true_iff, !String.eqb_eq. reflexivity.
Qed.

Lemma app_assoc_two {A} (l : list A) (x y : A) :
  (l ++ [x]) ++ [y] = l ++ [x; y].
Proof. now rewrite <- app_assoc. Qed.

(** Every run of the actuator is one of the [Managed] cases. *)
Lemma manage_instances_Managed (operation : string) (instance_ids : list string)
      (w : World) (r : Result unit) (w' : World) :
  manage_instances operation instance_ids w = (r, w') ->
  Managed operation instance_ids w r w'.
Proof.
  unfold manage_instances. run. unfold ec2 at 1. run.
  pose proof (observe_failed operation instance_ids w) as Hfail.
  pose proof (already operation instance_ids w) as Halready.
  pose proof (cooling operation instance_ids w) as Hcool.
  pose proof (performed operation instance_ids w) as Hdone.
  pose proof (action_failed operation instance_ids w) as Hbad.
  pose proof (no_such_operation operation instance_ids w) as Hnone.
  unfold observed_state, describe_exchange in *. cbn [reply] in *.
  destruct (ec2_api w (history w) (DescribeInstances instance_ids))
    as [rs|e] eqn:Hd; run.
  2:{ intros H. injection H as <- <-. now apply Hfail. }
  unfold first_state_name.
  destruct rs as [|[|name others] rest]; run.
  1,2: intros H; injection H as <- <-; now apply Hfail.
  destruct ((operation =? "start")%string && (name =? "running")%string
            || (operation =? "stop")%string && (name =? "stopped")%string)
    eqn:Hdes; run.
  { intros H. injection H as <- <-. apply Halready; [reflexivity|].
    now apply desired_test. }
  assert (Hnot : ~ desired operation name).
  { intros D. apply desired_test in D. congruence. }
  assert (Hgate :
    forall k : nat, gate_open w k ->
    forall v : World,
      v = mkWorld (REQUEST_LOG w) (LAST_SCALING_TIME w) k (clock w)
            (history w ++ [mkExchange (DescribeInstances instance_ids)
                                      (Response ((name :: others) :: rest))])
            (ec2_api w) (logged w) ->
      forall F : Result unit * World,
        F = (let (r0, v') :=
               (if (operation =? "start")%string
                then ec2 (StartInstances instance_ids) ;;
                     logger INFO (StartedInstances instance_ids)
                else if (operation =? "stop")%string
                     then ec2 (StopInstances instance_ids) ;;
                          logger INFO (StoppedInstances instance_ids)
                     else ret tt) v in
             match r0 with
             | Ok _ => (datetime_now ;; set_LAST_SCALING_TIME (Some (clock v' (ticks v')))) v'
             | Raise e => (Raise e, v')
             end) ->
      forall G : Result unit * World,
        G = (let (r1, v1) := F in
             match r1 with
             | Ok a => (Ok a, v1)
             | Raise e => (logger ERROR (AwsApiError (str e)) ;; raise e) v1
             end) ->
        G = (r, w') -> Managed operation instance_ids w r w').
  { intros k Hk v -> F -> G ->.
    specialize (Hdone name k). specialize (Hbad name k). specialize (Hnone name k).
    unfold action_of, done_message in *.
    destruct (operation =? "start")%string.
    - run. unfold ec2 at 1. unfold after. run.
      destruct (ec2_api w _ (StartInstances instance_ids)) as [rs'|e'] eqn:Ha; run;
        intros H; injection H as <- <-; rewrite app_assoc_two.
      + now apply (Hdone _ rs').
      + now apply (Hbad _ e').
    - destruct (operation =? "stop")%string.
      + run. unfold ec2 at 1. unfold after. run.
        destruct (ec2_api w _ (StopInstances instance_ids)) as [rs'|e'] eqn:Ha; run;
          intros H; injection H as <- <-; rewrite app_assoc_two.
        * now apply (Hdone _ rs').
        * now apply (Hbad _ e').
      + run. intros H; injection H as <- <-.
        unfold after in Hnone. rewrite app_nil_r in Hnone. now apply Hnone. }
  destruct (LAST_SCALING_TIME w) as [t|] eqn:Hlast; run.
  - destruct (Z.ltb_spec (clock w (ticks w) - t) (timedelta_seconds COOLDOWN_PERIOD))
      as [Hlt|Hge]; run.
    + intros H. injection H as <- <-. now apply (Hcool name t).
    + intros H.
      refine (Hgate (S (ticks w)) _ _ eq_refl _ eq_refl _ eq_refl H).
      now apply gate_elapsed with t.
  - intros H.
    refine (Hgate (ticks w) _ _ eq_refl _ eq_refl _ eq_refl H).
    now apply gate_never.
Qed.

Lemma since_app (w w' : World) (seg : list Exchange) :
  history w' = history w ++ seg -> since w w' = seg.
Proof.
  intros H. unfold since. rewrite H.
  rewrite skipn_app, Nat.sub_diag, skipn_all. reflexivity.
Qed.

Lemma since_after (w : World) last k seg msgs :
  since w (after w last k (history w ++ seg) msgs) = seg.
Proof. now apply since_app. Qed.

(** A run that meets the idempotence guard. *)
Lemma manage_instances_already (operation : string) (instance_ids : list string)
      (w : World) (current_state : string) :
  observed_state w instance_ids = Ok current_state ->
  desired operation current_state ->
  manage_instances operation instance_ids w
  = (Ok tt,
     after w (LAST_SCALING_TIME w) (ticks w)
           (history w ++ [describe_exchange w instance_ids])
           [(INFO, AlreadyInState instance_ids current_state)]).
Proof.
  intros Hobs Hdes. managed_by manage_instances_Managed Hrun r w'.
  destruct Hrun as [e He|s Hs _|s t Hs Hn _ _|s k a rs Hs Hn _ _ _
                   |s k a e Hs Hn _ _ _|s k Hs Hn _ _];
    rewrite Hobs in *; try discriminate;
    injection Hs as <-; try contradiction.
  reflexivity.
Qed.

(** C4.  A tier whose observed state is already the desired one (the
    target tier observed running, any other tier observed stopped) is
    reconciled by the describe call alone: no start or stop call is issued
    and [LAST_SCALING_TIME] is what it was; the run returns normally,
    reads no clock and logs that the instances are already in that
    state. *)
Theorem C4_idempotence_guard
        (target_group group : string) (cfg : InstanceGroup) (w : World)
        (current_state : string) :
  observed_state w (ids cfg) = Ok current_state ->
  (group = target_group /\ current_state = "running"%string)
  \/ (group <> target_group /\ current_state = "stopped"%string) ->
  let r := fst (reconcile target_group (group, cfg) w) in
  let w' := snd (reconcile target_group (group, cfg) w) in
  r = Ok tt
  /\ since w w' = [describe_exchange w (ids cfg)]
  /\ transitions_issued w w' = 0%nat
  /\ LAST_SCALING_TIME w' = LAST_SCALING_TIME w
  /\ ticks w' = ticks w
  /\ logged w' = logged w ++ [(INFO, AlreadyInState (ids cfg) current_state)].
Proof.
  intros Hobs Hcase. cbn zeta. unfold reconcile.
  assert (Hrun : exists operation,
             (if (group =? target_group)%string
              then manage_instances "start" (ids cfg)
              else manage_instances "stop" (ids cfg)) w
             = manage_instances operation (ids cfg) w
             /\ desired operation current_state).
  { destruct Hcase as [[-> ->]|[Hne ->]].
    - exists "start"%string. rewrite String.eqb_refl. split; [reflexivity|].
      now left.
    - exists "stop"%string. apply String.eqb_neq in Hne. rewrite Hne.
      split; [reflexivity|]. now right. }
  destruct Hrun as [operation [-> Hdes]].
  rewrite (manage_instances_already _ _ _ _ Hobs Hdes). cbn [fst snd].
  unfold transitions_issued. rewrite since_after.
  repeat split; reflexivity.
Qed.

Lemma C4_idempotence_guard_witness :
  let w := fresh_world (only_running small_ids) 0 in
  fst (reconcile "small" ("small"%string, small_tier) w) = Ok tt
  /\ transitions_issued w (snd (reconcile "small" ("small"%string, small_tier) w))
     = 0%nat.
Proof.
  pose proof (C4_idempotence_guard "small" "small" small_tier
                (fresh_world (only_running small_ids) 0) "running"
                eq_refl (or_introl (conj eq_refl eq_refl))) as H.
  cbn zeta in *. destruct H as [H1 [_ [H2 _]]]. split; assumption.
Defined.

Lemma two_exchanges (pre post : list Exchange) (x d a : Exchange) :
  pre ++ x :: post = [d; a] ->
  (pre = [] /\ x = d /\ post = [a]) \/ (pre = [d] /\ x = a /\ post = []).
Proof.
  destruct pre as [|p [|p' pre]]; cbn; intros H.
  - injection H as -> ->. now left.
  - injection H as -> -> ->. now right.
  - exfalso. inversion H as [[H1 H2 H3]]. now destruct pre.
Qed.

Lemma one_exchange (pre post : list Exchange) (x d : Exchange) :
  pre ++ x :: post = [d] -> pre = [] /\ x = d /\ post = [].
Proof.
  destruct pre as [|p pre]; cbn; intros H.
  - injection H as -> ->. auto.
  - injection H as _ H. now destruct pre.
Qed.

Lemma describe_fault (w : World) (instance_ids : list string) (c : Call)
      (e : Exception) :
  mkExchange c (Fault e) = describe_exchange w instance_ids ->
  observed_state w instance_ids = Raise e.
Proof.
  intros H. unfold observed_state. rewrite <- H. reflexivity.
Qed.

Lemma action_of_transition (operation : string) (instance_ids : list string)
      (a : Call) :
  action_of operation instance_ids = Some a ->
  a = StartInstances instance_ids \/ a = StopInstances instance_ids.
Proof.
  unfold action_of.
  destruct (operation =? "start")%string; [intros H; injection H as <-; auto|].
  destruct (operation =? "stop")%string; [intros H; injection H as <-; auto|].
  discriminate.
Qed.

(** C8.  Whenever a call made to the fleet controller during one
    reconciliation (the describe call, the start or the stop) is answered
    by an error [e], the actuator raises that same [e] to its caller,
    leaves [LAST_SCALING_TIME] as it was, makes no further call after the
    failed one and had not made that call before (no retry), and logs the
    failure.  More generally a run that raises, for whatever reason,
    leaves [LAST_SCALING_TIME] unchanged. *)
Theorem C8_failure_propagates (operation : string) (instance_ids : list string)
        (w : World) :
  let r := fst (manage_instances operation instance_ids w) in
  let w' := snd (manage_instances operation instance_ids w) in
  (forall pre c e post,
      since w w' = pre ++ mkExchange c (Fault e) :: post ->
      r = Raise e
      /\ post = []
      /\ ~ In c (map request pre)
      /\ LAST_SCALING_TIME w' = LAST_SCALING_TIME w
      /\ logged w' = logged w ++ [(ERROR, AwsApiError (str e))])
  /\ (forall e, r = Raise e -> LAST_SCALING_TIME w' = LAST_SCALING_TIME w).
Proof.
  cbn zeta. managed_by manage_instances_Managed Hrun r w'. cbn [fst snd].
  destruct Hrun as [e0 He|s Hs Hd|s t Hs Hn Hl Hc|s k a rs Hs Hn Hg Ha Hr
                   |s k a e0 Hs Hn Hg Ha Hr|s k Hs Hn Hg Ha];
    rewrite since_after; (split; [|intros e' E; try discriminate; reflexivity]);
    intros pre c e post Hseg; symmetry in Hseg.
  - apply one_exchange in Hseg. destruct Hseg as [-> [Hx ->]].
    apply describe_fault in Hx. rewrite Hx in He. injection He as <-.
    repeat split; auto.
  - apply one_exchange in Hseg. destruct Hseg as [_ [Hx _]].
    apply describe_fault in Hx. congruence.
  - apply one_exchange in Hseg. destruct Hseg as [_ [Hx _]].
    apply describe_fault in Hx. congruence.
  - apply two_exchanges in Hseg. destruct Hseg as [[_ [Hx _]]|[_ [Hx _]]].
    + apply describe_fault in Hx. congruence.
    + discriminate.
  - apply two_exchanges in Hseg. destruct Hseg as [[_ [Hx _]]|[-> [Hx ->]]].
    + apply describe_fault in Hx. congruence.
    + injection Hx as -> ->. repeat split; auto.
      cbn. intros [H|[]]. apply action_of_transition in Ha.
      destruct Ha as [->| ->]; discriminate.
  - apply one_exchange in Hseg. destruct Hseg as [_ [Hx _]].
    apply describe_fault in Hx. congruence.
Qed.

Lemma C8_failure_propagates_witness :
  let w := fresh_world (refusing medium_ids) 0 in
  fst (manage_instances "start" small_ids w)
  = Raise (ClientError "UnauthorizedOperation")
  /\ LAST_SCALING_TIME (snd (manage_instances "start" small_ids w)) = None.
Proof.
  destruct (C8_failure_propagates "start" small_ids
              (fresh_world (refusing medium_ids) 0)) as [H _].
  specialize (H [describe_exchange (fresh_world (refusing medium_ids) 0) small_ids]
                (StartInstances small_ids)
                (ClientError "UnauthorizedOperation") [] eq_refl).
  cbn zeta. destruct H as [H1 [_ [_ [H2 _]]]]. split; assumption.
Defined.

(** ** The status query *)

Lemma after_after (w : World) l k h m l' k' h' m' :
  after (after w l k h m) l' k' h' m' = after w l' k' h' (m ++ m').
Proof. unfold after. cbn. now rewrite app_assoc. Qed.

Lemma after_same (w : World) :
  after w (LAST_SCALING_TIME w) (ticks w) (history w ++ []) [] = w.
Proof. destruct w. unfold after. cbn. now rewrite !app_nil_r. Qed.

(** The polling loop: every tier is asked once, whatever the tiers before
    it answered; a failed fetch is logged and the loop goes on. *)
Lemma status_checks_run (groups : list (string * InstanceGroup)) :
  forall (active_groups : list string) (w : World),
    let ps := polls (ec2_api w) (history w) groups in
    status_checks groups active_groups w
    = (Ok (active_groups ++ map fst (filter reports_running ps)),
       after w (LAST_SCALING_TIME w) (ticks w)
             (history w ++ map snd ps) (flat_map poll_message ps)).
Proof.
  induction groups as [|[group cfg] rest IH]; intros active w; cbn zeta.
  - cbn. rewrite app_nil_r, after_same. reflexivity.
  - cbn [status_checks polls]. run. unfold ec2 at 1. run.
    set (x := mkExchange _ _).
    assert (Hone : forall (act : list string) (msgs : list (Level * Message)),
               act = (if reports_running (group, x) then active ++ [group] else active) ->
               msgs = poll_message (group, x) ->
               status_checks rest act
                 (after w (LAST_SCALING_TIME w) (ticks w) (history w ++ [x]) msgs)
               = (Ok (active ++ map fst (filter reports_running
                                          ((group, x) :: polls (ec2_api w) (history w ++ [x]) rest))),
                  after w (LAST_SCALING_TIME w) (ticks w)
                        (history w ++ map snd ((group, x) :: polls (ec2_api w) (history w ++ [x]) rest))
                        (flat_map poll_message
                           ((group, x) :: polls (ec2_api w) (history w ++ [x]) rest)))).
    { intros act msgs -> ->. rewrite IH. cbn [after ec2_api history LAST_SCALING_TIME ticks].
      rewrite after_after. cbn [filter map flat_map snd].
      rewrite <- app_assoc. cbn [app].
      destruct (reports_running (group, x)); cbn [map fst];
        rewrite <- ?app_assoc; reflexivity. }
    subst x.
    destruct (ec2_api w (history w) (DescribeInstances (ids cfg))) as [rs|e];
      run.
    + unfold first_state_name. destruct rs as [|[|name others] rs]; run.
      * rewrite <- (Hone active _ eq_refl eq_refl). reflexivity.
      * rewrite <- (Hone active _ eq_refl eq_refl). reflexivity.
      * rewrite <- (Hone (if (name =? "running")%string
                          then active ++ [group] else active) [] eq_refl eq_refl).
        destruct (name =? "running")%string; run;
          unfold after; cbn; rewrite app_nil_r; reflexivity.
    + rewrite <- (Hone active _ eq_refl eq_refl). reflexivity.
Qed.

Lemma polls_names api h groups : map fst (polls api h groups) = map fst groups.
Proof.
  revert h. induction groups as [|[g cfg] rest IH]; intros h; cbn.
  - reflexivity.
  - now rewrite IH.
Qed.

Lemma unique_poll {A B} (l : list (A * B)) (g : A) (x x' : B) :
  NoDup (map fst l) -> In (g, x) l -> In (g, x') l -> x = x'.
Proof.
  induction l as [|[a b] l IH]; cbn; intros Hnd H1 H2; [contradiction|].
  inversion Hnd as [|? ? Hnotin Hnd']; subst.
  destruct H1 as [H1|H1], H2 as [H2|H2].
  - congruence.
  - injection H1 as -> ->. exfalso. apply Hnotin.
    change g with (fst (g, x')). now apply in_map.
  - injection H2 as -> ->. exfalso. apply Hnotin.
    change g with (fst (g, x)). now apply in_map.
  - now apply IH.
Qed.

Lemma tier_names_distinct : NoDup (map fst INSTANCE_GROUPS).
Proof.
  cbn. repeat constructor; cbn; intuition discriminate.
Qed.

(** C9.  A status query never fails.  It asks the fleet controller about
    every tier once, in the configured order, whatever the earlier
    fetches answered; the report lists exactly the tiers whose own fetch
    succeeded and showed the first instance running.  So a tier whose
    fetch raises is left out of the report, and a tier whose fetch shows it
    running is in it whether or not other fetches raised.  The cooldown
    timestamp is untouched. *)
Theorem C9_status_query_isolated (w : World) :
  let ps := polls (ec2_api w) (history w) INSTANCE_GROUPS in
  let active := map fst (filter reports_running ps) in
  (exists rate : Q, fst (get_metrics w) = Ok (Metrics active rate))
  /\ since w (snd (get_metrics w)) = map snd ps
  /\ map fst ps = map fst INSTANCE_GROUPS
  /\ (forall group x e,
        In (group, x) ps -> state_of (reply x) = Raise e -> ~ In group active)
  /\ (forall group x,
        In (group, x) ps -> state_of (reply x) = Ok "running"%string ->
        In group active)
  /\ LAST_SCALING_TIME (snd (get_metrics w)) = LAST_SCALING_TIME w.
Proof.
  intros ps active. unfold get_metrics. run.
  rewrite status_checks_run. fold ps. cbn [app]. fold active.
  rewrite calculate_arrival_rate_run. cbn iota beta. run.
  split; [eexists; reflexivity|].
  split; [now apply since_app|].
  split; [apply polls_names|].
  split; [|split; [|reflexivity]].
  - intros group x e Hin Hst Hact.
    apply in_map_iff in Hact. destruct Hact as [[g x'] [Hg Hf]].
    cbn in Hg. subst g. apply filter_In in Hf. destruct Hf as [Hin' Hrun].
    assert (x' = x).
    { apply (unique_poll ps group); try assumption.
      unfold ps. rewrite polls_names. apply tier_names_distinct. }
    subst x'. unfold reports_running in Hrun. cbn [snd] in Hrun.
    rewrite Hst in Hrun. discriminate.
  - intros group x Hin Hst. unfold active.
    change group with (fst (group, x)). apply in_map.
    apply filter_In. split; [assumption|].
    unfold reports_running. cbn [snd]. now rewrite Hst.
Qed.

Lemma C9_status_query_isolated_witness :
  let w := fresh_world (flaky small_ids medium_ids) 0 in
  observed_state w small_ids = Raise (ClientError "RequestTimeout")
  /\ exists rate : Q, fst (get_metrics w) = Ok (Metrics ["medium"%string] rate).
Proof.
  cbn zeta. split; [reflexivity|].
  exact (proj1 (C9_status_query_isolated
                  (fresh_world (flaky small_ids medium_ids) 0))).
Defined.

(** ** The cooldown *)

Lemma extends_refl (w : World) : extends w w.
Proof.
  split; try reflexivity. exists []. now rewrite app_nil_r.
Qed.

Lemma extends_trans (w0 w w' : World) :
  extends w0 w -> extends w w' -> extends w0 w'.
Proof.
  intros [C1 A1 T1 [s1 H1]] [C2 A2 T2 [s2 H2]]. split.
  - congruence.
  - congruence.
  - lia.
  - exists (s1 ++ s2). rewrite H2, H1. now rewrite app_assoc.
Qed.

Lemma extends_after (w : World) last k seg msgs :
  (ticks w <= k)%nat -> extends w (after w last k (history w ++ seg) msgs).
Proof.
  intros Hk. split; try reflexivity; [exact Hk|]. now exists seg.
Qed.

Lemma extends_entering (w : World) : extends w (entering w).
Proof.
  split; try reflexivity; cbn; [lia|]. exists []. now rewrite app_nil_r.
Qed.

Lemma extends_logged (w : World) msgs :
  extends w (after w (LAST_SCALING_TIME w) (ticks w) (history w) msgs).
Proof.
  split; try reflexivity. exists []. cbn. now rewrite app_nil_r.
Qed.

Lemma Managed_extends operation instance_ids w r w' :
  Managed operation instance_ids w r w' -> extends w w'.
Proof.
  assert (G : forall k, gate_open w k -> (ticks w <= k)%nat).
  { intros k [|]; lia. }
  intros []; apply extends_after; try lia;
    match goal with H : gate_open _ _ |- _ => apply G in H; lia end.
Qed.

Lemma Managed_window operation instance_ids w r w' :
  Managed operation instance_ids w r w' -> REQUEST_LOG w' = REQUEST_LOG w.
Proof. now intros []. Qed.

Lemma transition_call (operation : string) (instance_ids : list string)
      (a : Call) (rp : Reply) :
  action_of operation instance_ids = Some a ->
  is_transition (mkExchange a rp) = true.
Proof.
  intros H. apply action_of_transition in H. now destruct H as [->| ->].
Qed.

Lemma gate_ticks (w : World) (k : nat) : gate_open w k -> (ticks w <= k)%nat.
Proof. intros [|]; lia. Qed.

Lemma since_self (w : World) : since w w = [].
Proof. unfold since. apply skipn_all. Qed.

(** A loop keeps what each of its rounds keeps. *)
Lemma for_each_invariant {A} (P : Result unit -> World -> Prop)
      (body : A -> M unit) :
  (forall x w r w', P (Ok tt) w -> body x w = (r, w') -> P r w') ->
  forall (xs : list A) (w : World) r w',
    P (Ok tt) w -> for_each xs body w = (r, w') -> P r w'.
Proof.
  intros Hbody. induction xs as [|x xs IH]; intros w r w' HP; cbn [for_each]; run.
  - intros H. injection H as <- <-. exact HP.
  - destruct (body x w) as [[[]|e] w1] eqn:Hx.
    + apply IH. exact (Hbody _ _ _ _ HP Hx).
    + intros H. injection H as <- <-. exact (Hbody _ _ _ _ HP Hx).
Qed.

Lemma reconcile_Managed target_group g w r w' :
  reconcile target_group g w = (r, w') ->
  exists operation,
    (operation = "start" \/ operation = "stop")%string
    /\ (operation = "start"%string <-> fst g = target_group)
    /\ Managed operation (ids (snd g)) w r w'.
Proof.
  destruct g as [group cfg]. unfold reconcile. cbn [fst snd].
  destruct (String.eqb_spec group target_group) as [Heq|Hne]; intros H;
    apply manage_instances_Managed in H.
  - exists "start"%string. repeat split; auto.
  - exists "stop"%string. repeat split; auto; try discriminate. contradiction.
Qed.

Lemma loop_window target_group groups w r w' :
  for_each groups (reconcile target_group) w = (r, w') ->
  REQUEST_LOG w' = REQUEST_LOG w.
Proof.
  apply (for_each_invariant (fun _ v => REQUEST_LOG v = REQUEST_LOG w));
    [|reflexivity].
  intros g v r1 v1 Hv Hrun.
  destruct (reconcile_Managed _ _ _ _ _ Hrun) as [op [_ [_ Hm]]].
  now rewrite (Managed_window _ _ _ _ _ Hm).
Qed.

(** A decision cycle: the event is recorded, the rate computed, the tiers
    reconciled in order; an error of the loop becomes the 500 answer. *)
Lemma handle_request_run (w : World) :
  handle_request w
  = match for_each INSTANCE_GROUPS (reconcile (cycle_target w)) (entering w) with
    | (Ok _, w') =>
        (Ok (Success (cycle_target w) (round (cycle_rate w) 2), 200), w')
    | (Raise e, w') =>
        (Ok (Failed (str e), 500),
         after w' (LAST_SCALING_TIME w') (ticks w') (history w')
               [(ERROR, RequestHandlingFailed (str e))])
    end.
Proof.
  unfold handle_request, cycle_target, cycle_rate, entering. run.
  rewrite calculate_arrival_rate_run.
  cbn iota beta. run. unfold pruned. run.
  destruct (for_each INSTANCE_GROUPS _ _) as [[[]|e] w']; reflexivity.
Qed.

Lemma issued_after_performed_app (seg delta : list Exchange) :
  issued_after_performed (seg ++ delta)
  = match List.length (filter (fun x => is_transition x && succeeded x) seg) with
    | O => issued_after_performed delta
    | S _ => (issued_after_performed seg
              + List.length (filter is_transition delta))%nat
    end.
Proof.
  induction seg as [|x seg IH]; cbn [app filter issued_after_performed List.length].
  - reflexivity.
  - destruct (is_transition x && succeeded x); cbn [List.length].
    + now rewrite filter_app, length_app.
    + exact IH.
Qed.

Create HintDb frame.
#[local] Hint Resolve extends_refl extends_after extends_entering extends_logged
  : frame.

(** The run under study starts in [w0]; transitions and clock readings
    are counted from there. *)
Section Run.

Variable w0 : World.

Lemma since_extend (w w' : World) (seg : list Exchange) :
  extends w0 w -> history w' = history w ++ seg ->
  since w0 w' = since w0 w ++ seg.
Proof.
  intros [_ _ _ [s0 H0]] H. rewrite (since_app w0 w s0 H0).
  apply since_app. rewrite H, H0. now rewrite app_assoc.
Qed.

Lemma readings_within_earlier (d : timedelta) (w w' : World) :
  (ticks w <= ticks w')%nat ->
  readings_within d w0 w' -> readings_within d w0 w.
Proof.
  intros Hle H i j Hi Hj. apply H; lia.
Qed.

Lemma stamped_later (w w' : World) :
  (ticks w <= ticks w')%nat -> LAST_SCALING_TIME w' = LAST_SCALING_TIME w ->
  stamped_since w0 w -> stamped_since w0 w'.
Proof.
  intros Hle Hl [k [Hk Hs]]. exists k. split; [lia|congruence].
Qed.

(** The gate is shut behind a transition performed in this run for as
    long as the readings stay within the cooldown. *)
Lemma gate_shut (w w' : World) (k : nat) :
  extends w0 w -> stamped_since w0 w -> gate_open w k ->
  (k <= ticks w')%nat -> readings_within cooldown w0 w' -> False.
Proof.
  intros Hext [k0 [Hk0 Hs]] Hgate Hk Hin.
  destruct Hgate as [Hnone|t Ht Hel]; [congruence|].
  rewrite Hs in Ht. injection Ht as <-.
  rewrite (same_clock _ _ Hext) in Hel.
  pose proof (more_ticks _ _ Hext).
  specialize (Hin (ticks w) k0). lia.
Qed.

(** How a run of the actuator moves the two counters. *)
Lemma Managed_counts operation instance_ids w r w' :
  extends w0 w -> Managed operation instance_ids w r w' ->
  exists issued done : nat,
    transitions_issued w0 w' = (transitions_issued w0 w + issued)%nat
    /\ transitions_performed w0 w' = (transitions_performed w0 w + done)%nat
    /\ (done <= issued <= 1)%nat
    /\ (issued = 0%nat ->
        LAST_SCALING_TIME w' = LAST_SCALING_TIME w
        \/ exists k, gate_open w k /\ (k < ticks w')%nat
                     /\ LAST_SCALING_TIME w' = Some (clock w k))
    /\ (issued = 1%nat -> exists k, gate_open w k /\ (k <= ticks w')%nat)
    /\ (issued = 1%nat -> done = 0%nat ->
        LAST_SCALING_TIME w' = LAST_SCALING_TIME w /\ exists e, r = Raise e)
    /\ (done = 1%nat ->
        exists k, (ticks w <= k < ticks w')%nat
                  /\ LAST_SCALING_TIME w' = Some (clock w k)).
Proof.
  intros Hext Hm. unfold transitions_issued, transitions_performed.
  destruct Hm as [e0 He|s Hs Hd|s t Hs Hn Hl Hc|s k a rs Hs Hn Hg Ha Hr
                 |s k a e0 Hs Hn Hg Ha Hr|s k Hs Hn Hg Ha];
    (erewrite (since_extend w) by (try exact Hext; reflexivity));
    rewrite !filter_app, !length_app;
    cbn [filter describe_exchange is_transition succeeded request reply andb
         List.length app];
    try rewrite !(transition_call _ _ _ (Response rs) Ha);
    try rewrite !(transition_call _ _ _ (Fault e0) Ha);
    cbn [andb List.length];
    pose proof (more_ticks _ _ Hext) as Hticks.
  - exists 0%nat, 0%nat. conjs; try lia. now left.
  - exists 0%nat, 0%nat. conjs; try lia. now left.
  - exists 0%nat, 0%nat. conjs; try lia. now left.
  - pose proof (gate_ticks _ _ Hg).
    exists 1%nat, 1%nat. conjs; try lia.
    + intros _. exists k. cbn. split; [assumption|lia].
    + intros _. exists k. cbn. split; [lia|reflexivity].
  - pose proof (gate_ticks _ _ Hg).
    exists 1%nat, 0%nat. conjs; try lia.
    + intros _. exists k. cbn. split; [assumption|lia].
    + intros _ _. split; [reflexivity|now exists e0].
  - pose proof (gate_ticks _ _ Hg).
    exists 0%nat, 0%nat. conjs; try lia.
    intros _. right. exists k. cbn. conjs; try assumption; try reflexivity. lia.
Qed.

(** After a run of the actuator, the calls issued behind the first
    performed transition. *)
Lemma Managed_after_performed operation instance_ids w r w' :
  extends w0 w -> Managed operation instance_ids w r w' ->
  issued_after_performed (since w0 w')
  = match transitions_performed w0 w with
    | O => 0%nat
    | S _ => (issued_after_performed (since w0 w)
              + (transitions_issued w0 w' - transitions_issued w0 w))%nat
    end.
Proof.
  intros Hext Hm. unfold transitions_issued, transitions_performed.
  destruct Hm as [e0 He|s Hs Hd|s t Hs Hn Hl Hc|s k a rs Hs Hn Hg Ha Hr
                 |s k a e0 Hs Hn Hg Ha Hr|s k Hs Hn Hg Ha];
    (erewrite (since_extend w) by (try exact Hext; reflexivity));
    rewrite issued_after_performed_app, !filter_app, !length_app;
    cbn [filter describe_exchange is_transition succeeded request reply andb
         List.length app issued_after_performed];
    try rewrite !(transition_call _ _ _ (Response rs) Ha);
    try rewrite !(transition_call _ _ _ (Fault e0) Ha);
    cbn [andb List.length filter issued_after_performed];
    destruct (List.length (filter _ (since w0 w))); lia.
Qed.

Lemma stamped_by_step (w w' : World) (k : nat) :
  extends w0 w -> (ticks w <= k < ticks w')%nat ->
  LAST_SCALING_TIME w' = Some (clock w k) -> stamped_since w0 w'.
Proof.
  intros Hext Hk Hl. exists k. pose proof (more_ticks _ _ Hext).
  split; [lia|]. now rewrite <- (same_clock _ _ Hext).
Qed.

(** One run of the actuator keeps the cooldown invariant. *)
Lemma Cool_step operation instance_ids w r w' :
  Cool w0 w -> Managed operation instance_ids w r w' -> Cool w0 w'.
Proof.
  intros [Hext Hinv] Hm.
  pose proof (Managed_extends _ _ _ _ _ Hm) as Hstep.
  split; [now apply extends_trans with w|]. intros Hin.
  pose proof (more_ticks _ _ Hstep) as Hticks.
  specialize (Hinv (readings_within_earlier _ _ _ Hticks Hin)).
  pose proof (Managed_after_performed _ _ _ _ _ Hext Hm) as Hq.
  destruct (Managed_counts _ _ _ _ _ Hext Hm)
    as [issued [done [Hi [Hp [Hb [H0 [H1 [_ Hd]]]]]]]].
  rewrite Hp.
  destruct Hinv as [Hzero|[Hone [Hst Hquiet]]].
  - rewrite Hzero in *. destruct done as [|[|]]; [now left| |lia].
    right. split; [reflexivity|]. split; [|exact Hq].
    destruct (Hd eq_refl) as [k [Hk Hl]]. now apply stamped_by_step with w k.
  - rewrite Hone in *. destruct issued as [|[|]]; [| |lia].
    + assert (done = 0%nat) as -> by lia. right. split; [lia|].
      split; [|lia].
      destruct (H0 eq_refl) as [Hl|[k [Hg [Hk _]]]].
      * now apply stamped_later with w.
      * exfalso. apply (gate_shut w w' k); try assumption. lia.
    + exfalso. destruct (H1 eq_refl) as [k [Hg Hk]].
      now apply (gate_shut w w' k).
Qed.

(** Inside a decision cycle the same holds of the calls issued. *)
Lemma Calm_step operation instance_ids w r w' :
  Calm w0 (Ok tt) w -> Managed operation instance_ids w r w' -> Calm w0 r w'.
Proof.
  intros [Hext Hinv] Hm.
  pose proof (Managed_extends _ _ _ _ _ Hm) as Hstep.
  split; [now apply extends_trans with w|]. intros Hin.
  pose proof (more_ticks _ _ Hstep) as Hticks.
  specialize (Hinv (readings_within_earlier _ _ _ Hticks Hin)).
  destruct (Managed_counts _ _ _ _ _ Hext Hm)
    as [issued [done [Hi [_ [Hb [H0 [H1 [Hf Hd]]]]]]]].
  rewrite Hi.
  destruct Hinv as [Hzero|[Hone [Hst|[e He]]]]; [| |discriminate].
  - rewrite Hzero. destruct issued as [|[|]]; [now left| |lia].
    right. split; [reflexivity|].
    destruct done as [|[|]]; [| |lia].
    + right. now destruct (Hf eq_refl eq_refl) as [_ He].
    + left. destruct (Hd eq_refl) as [k [Hk Hl]].
      now apply stamped_by_step with w k.
  - rewrite Hone. destruct issued as [|[|]]; [| |lia].
    + right. split; [lia|]. left.
      destruct (H0 eq_refl) as [Hl|[k [Hg [Hk _]]]].
      * now apply stamped_later with w.
      * exfalso. apply (gate_shut w w' k); try assumption. lia.
    + exfalso. destruct (H1 eq_refl) as [k [Hg Hk]].
      now apply (gate_shut w w' k).
Qed.

Lemma loop_Cool target_group groups w r w' :
  Cool w0 w -> for_each groups (reconcile target_group) w = (r, w') ->
  Cool w0 w'.
Proof.
  intros HC. apply (for_each_invariant (fun _ v => Cool w0 v)); [|exact HC].
  intros g v r1 v1 Hv Hrun.
  destruct (reconcile_Managed _ _ _ _ _ Hrun) as [op [_ [_ Hm]]].
  exact (Cool_step _ _ _ _ _ Hv Hm).
Qed.

Lemma loop_Calm target_group groups w r w' :
  Calm w0 (Ok tt) w -> for_each groups (reconcile target_group) w = (r, w') ->
  Calm w0 r w'.
Proof.
  apply (for_each_invariant (Calm w0)).
  intros g v r1 v1 Hv Hrun.
  destruct (reconcile_Managed _ _ _ _ _ Hrun) as [op [_ [_ Hm]]].
  exact (Calm_step _ _ _ _ _ Hv Hm).
Qed.

Lemma issued_same_history (w w' : World) :
  history w' = history w -> transitions_issued w0 w' = transitions_issued w0 w.
Proof. intros H. unfold transitions_issued, since. now rewrite H. Qed.

(** Steps that issue no start or stop and leave the timestamp alone keep
    the invariants. *)
Lemma Cool_quiet (w w' : World) (seg : list Exchange) :
  Cool w0 w -> extends w w' -> history w' = history w ++ seg ->
  filter is_transition seg = [] ->
  LAST_SCALING_TIME w' = LAST_SCALING_TIME w -> Cool w0 w'.
Proof.
  intros [Hext Hinv] Hstep Hh Hseg Hl.
  split; [now apply extends_trans with w|]. intros Hin.
  pose proof (more_ticks _ _ Hstep) as Hticks.
  specialize (Hinv (readings_within_earlier _ _ _ Hticks Hin)).
  assert (Hnone : filter (fun x => is_transition x && succeeded x) seg = []).
  { clear - Hseg. induction seg as [|x seg IH]; [reflexivity|].
    cbn [filter] in *. destruct (is_transition x); [discriminate|].
    cbn [andb]. now apply IH. }
  unfold transitions_performed in *.
  rewrite (since_extend w w' seg Hext Hh), filter_app, length_app, Hnone.
  cbn [List.length]. rewrite Nat.add_0_r.
  destruct Hinv as [Hz|[Ho [Hs Hq]]]; [now left|right].
  split; [assumption|]. split; [now apply stamped_later with w|].
  rewrite issued_after_performed_app, Ho, Hseg, Hq. reflexivity.
Qed.

Lemma Cool_frame (w w' : World) :
  Cool w0 w -> extends w w' -> history w' = history w ->
  LAST_SCALING_TIME w' = LAST_SCALING_TIME w -> Cool w0 w'.
Proof.
  intros HC Hstep Hh Hl. apply (Cool_quiet w w' []); auto.
  now rewrite app_nil_r.
Qed.

Lemma Calm_frame (w w' : World) (r : Result unit) :
  Calm w0 r w -> extends w w' -> history w' = history w ->
  LAST_SCALING_TIME w' = LAST_SCALING_TIME w -> Calm w0 r w'.
Proof.
  intros [Hext Hinv] Hstep Hh Hl.
  split; [now apply extends_trans with w|]. intros Hin.
  pose proof (more_ticks _ _ Hstep) as Hticks.
  specialize (Hinv (readings_within_earlier _ _ _ Hticks Hin)).
  rewrite (issued_same_history _ _ Hh).
  destruct Hinv as [Hz|[Ho [Hs|He]]]; [now left|right|right; now split; [|right]].
  split; [assumption|]. left. now apply stamped_later with w.
Qed.

(** A whole decision cycle keeps the cooldown invariant. *)
Lemma handle_request_Cool (w : World) :
  Cool w0 w -> Cool w0 (snd (handle_request w)).
Proof.
  intros HC. rewrite handle_request_run.
  assert (HE : Cool w0 (entering w)).
  { apply (Cool_frame w); try reflexivity; auto with frame. }
  destruct (for_each INSTANCE_GROUPS (reconcile (cycle_target w)) (entering w))
    as [[[]|e] w'] eqn:Hloop; cbn [snd];
    pose proof (loop_Cool _ _ _ _ _ HE Hloop) as HL; [exact HL|].
  apply (Cool_frame w'); try reflexivity; auto with frame.
Qed.

Lemma polls_are_describes api h groups :
  filter is_transition (map snd (polls api h groups)) = [].
Proof.
  revert h. induction groups as [|[g cfg] rest IH]; intros h; cbn; auto.
Qed.

(** A status query keeps the cooldown invariant: it only describes. *)
Lemma get_metrics_Cool (w : World) :
  Cool w0 w -> Cool w0 (snd (get_metrics w)).
Proof.
  intros HC. unfold get_metrics. run.
  rewrite status_checks_run. cbn iota beta.
  rewrite calculate_arrival_rate_run. cbn iota beta. run.
  apply (Cool_quiet w _ (map snd (polls (ec2_api w) (history w) INSTANCE_GROUPS))
                    HC).
  - split; try reflexivity; cbn; [lia|]. eexists; reflexivity.
  - reflexivity.
  - apply polls_are_describes.
  - reflexivity.
Qed.

Lemma serve_all_Cool (routes : list Route) :
  forall w : World, Cool w0 w -> Cool w0 (serve_all routes w).
Proof.
  induction routes as [|route routes IH]; intros w HC; cbn; [exact HC|].
  apply IH. destruct route; cbn [serve].
  - now apply handle_request_Cool.
  - now apply get_metrics_Cool.
Qed.

End Run.

Lemma Cool_start (w : World) : Cool w w.
Proof.
  split; [apply extends_refl|]. intros _. left.
  unfold transitions_performed. now rewrite since_self.
Qed.

Lemma Calm_start (w : World) : Calm w (Ok tt) w.
Proof.
  split; [apply extends_refl|]. intros _. left.
  unfold transitions_issued. now rewrite since_self.
Qed.

Lemma handle_request_Calm (w : World) :
  exists r, Calm w r (snd (handle_request w)).
Proof.
  rewrite handle_request_run.
  assert (HE : Calm w (Ok tt) (entering w)).
  { apply (Calm_frame w w); try reflexivity; [apply Calm_start|auto with frame]. }
  destruct (for_each INSTANCE_GROUPS (reconcile (cycle_target w)) (entering w))
    as [[[]|e] w'] eqn:Hloop; cbn [snd];
    pose proof (loop_Calm _ _ _ _ _ _ HE Hloop) as HL.
  - now exists (Ok tt).
  - exists (Raise e).
    apply (Calm_frame w w'); try reflexivity; [exact HL|auto with frame].
Qed.

Lemma tier_le_all (cfg : InstanceGroup) (w w' : World) :
  (tier_transitions_performed cfg w w' <= transitions_performed w w')%nat.
Proof.
  unfold tier_transitions_performed, transitions_performed.
  induction (since w w') as [|x l IH]; cbn; [lia|].
  destruct (is_transition x && succeeded x); cbn [andb]; [|exact IH].
  destruct (same_ids _ _); cbn; lia.
Qed.


(** ** Rounding the reported rate *)

(** The double nearest to one tenth, and doubles that are their own
    nearest double. *)
Example to_double_samples :
  to_double (1 # 10) == 3602879701896397 # 36028797018963968
  /\ to_double (1 # 8) == 1 # 8
  /\ to_double 5 == 5
  /\ to_double 0 == 0
  /\ to_double (- (1 # 10)) == - to_double (1 # 10).
Proof. repeat split; vm_compute; reflexivity. Qed.

(** [round] follows the float, not the fraction it was computed from:
    3/40 is reported as 0.07, since the double nearest to 0.075 lies below
    it; 1/8 and 3/8 are doubles and go to their even neighbours; 2.675 is
    reported as 2.67. *)
Example round_follows_the_float :
  round (3 # 40) 2 = 7 # 100
  /\ round (1 # 8) 2 = 12 # 100
  /\ round (3 # 8) 2 = 38 # 100
  /\ round (2675 # 1000) 2 = 267 # 100
  /\ round 5 2 = 500 # 100
  /\ round 0 2 = 0 # 100.
Proof. repeat split; vm_compute; reflexivity. Qed.

(** Three requests over forty seconds: the status query reports 0.07. *)
Example three_in_forty_is_reported_as_0_07 :
  fst (calculate_arrival_rate three_in_forty_world) = Ok (3000000 # 40000000)
  /\ fst (get_metrics three_in_forty_world) = Ok (Metrics [] (7 # 100)).
Proof. split; vm_compute; reflexivity. Qed.

(** ** Cooldown: the two claims *)

Lemma gate_open_elapsed (w : World) (k : nat) (t : datetime) :
  gate_open w k -> LAST_SCALING_TIME w = Some t ->
  cooldown <= clock w (ticks w) - t.
Proof.
  intros [Hnone|t' Ht Hel] Hl; [congruence|].
  rewrite Hl in Ht. now injection Ht as <-.
Qed.

Lemma issued_from_self (w w' : World) (n : nat) :
  transitions_issued w w' = (transitions_issued w w + n)%nat ->
  transitions_issued w w' = n.
Proof.
  unfold transitions_issued at 2. rewrite since_self. cbn. lia.
Qed.

Lemma performed_from_self (w w' : World) (n : nat) :
  transitions_performed w w' = (transitions_performed w w + n)%nat ->
  transitions_performed w w' = n.
Proof.
  unfold transitions_performed at 2. rewrite since_self. cbn. lia.
Qed.

(** While the cooldown runs the actuator issues nothing, for whatever
    instances and whatever operation it is called. *)
Lemma manage_instances_cooling (operation : string) (instance_ids : list string)
      (w : World) (t : datetime) :
  LAST_SCALING_TIME w = Some t ->
  clock w (ticks w) - t < cooldown ->
  transitions_issued w (snd (manage_instances operation instance_ids w)) = 0%nat
  /\ LAST_SCALING_TIME (snd (manage_instances operation instance_ids w)) = Some t.
Proof.
  intros Hl Hc. managed_by manage_instances_Managed Hrun r w'. cbn [snd].
  destruct (Managed_counts w _ _ w _ _ (extends_refl w) Hrun)
    as [issued [done [Hi [_ [Hb [H0 [H1 _]]]]]]].
  apply issued_from_self in Hi. rewrite Hi.
  destruct issued as [|[|]]; [| |lia].
  - split; [reflexivity|].
    destruct (H0 eq_refl) as [Hs|[k [Hg _]]]; [congruence|].
    pose proof (gate_open_elapsed _ _ _ Hg Hl). lia.
  - destruct (H1 eq_refl) as [k [Hg _]].
    pose proof (gate_open_elapsed _ _ _ Hg Hl). lia.
Qed.

(** A performed transition stamps the one shared timestamp with a clock
    reading of that very run. *)
Lemma manage_instances_stamps (operation : string) (instance_ids : list string)
      (w : World) :
  transitions_performed w (snd (manage_instances operation instance_ids w)) = 1%nat ->
  exists k : nat,
    (ticks w <= k < ticks (snd (manage_instances operation instance_ids w)))%nat
    /\ LAST_SCALING_TIME (snd (manage_instances operation instance_ids w))
       = Some (clock w k).
Proof.
  managed_by manage_instances_Managed Hrun r w'. cbn [snd]. intros Hone.
  destruct (Managed_counts w _ _ w _ _ (extends_refl w) Hrun)
    as [issued [done [_ [Hp [_ [_ [_ [_ Hd]]]]]]]].
  apply performed_from_self in Hp. apply Hd. congruence.
Qed.

Lemma cycle_issues_at_most_one (w : World) :
  readings_within cooldown w (snd (handle_request w)) ->
  (transitions_issued w (snd (handle_request w)) <= 1)%nat.
Proof.
  intros Hin. destruct (handle_request_Calm w) as [r [_ Hinv]].
  destruct (Hinv Hin) as [Hz|[Ho _]]; lia.
Qed.

Lemma nothing_performed_nothing_after (seg : list Exchange) :
  List.length (filter (fun x => is_transition x && succeeded x) seg) = 0%nat ->
  issued_after_performed seg = 0%nat.
Proof.
  induction seg as [|x seg IH]; cbn [filter issued_after_performed];
    [reflexivity|].
  destruct (is_transition x && succeeded x); [discriminate|exact IH].
Qed.

(** Any run of decision cycles and status queries whose clock readings
    stay within the cooldown of one another performs at most one
    transition and issues no start or stop after it. *)
Lemma run_within_cooldown (routes : list Route) (w : World) :
  readings_within cooldown w (serve_all routes w) ->
  (transitions_performed w (serve_all routes w) <= 1)%nat
  /\ issued_after_performed (since w (serve_all routes w)) = 0%nat.
Proof.
  intros Hin.
  destruct (serve_all_Cool w routes w (Cool_start w)) as [_ Hinv].
  destruct (Hinv Hin) as [Hz|[Ho [_ Hq]]].
  - split; [lia|]. now apply nothing_performed_nothing_after.
  - split; [lia|exact Hq].
Qed.

Lemma two_cycles_perform_at_most_one (w : World) :
  readings_within cooldown w (snd (handle_request (snd (handle_request w)))) ->
  (transitions_performed w (snd (handle_request (snd (handle_request w)))) <= 1)%nat.
Proof.
  intros Hin.
  destruct (handle_request_Cool w _ (handle_request_Cool w w (Cool_start w)))
    as [_ Hinv].
  destruct (Hinv Hin) as [Hz|[Ho _]]; lia.
Qed.

Lemma spaced_cycles_apart (ups : list (list string)) :
  let w := two_spaced_cycles ups in
  let w1 := snd (handle_request w) in
  let w2 := snd (handle_request w1) in
  ticks w1 = 3%nat -> readings_apart cooldown w w1 w2.
Proof.
  intros w w1 w2 T1 i j Hi Hj. rewrite T1 in Hi, Hj.
  change (clock w) with late_clock. unfold late_clock.
  destruct (Nat.ltb_spec i 3); [|lia].
  destruct (Nat.ltb_spec j 3); [lia|].
  vm_compute. reflexivity.
Qed.

Lemma steady_clock_within (now : datetime) (w w' : World) :
  clock w = (fun _ => now) -> readings_within cooldown w w'.
Proof.
  intros Hc i j _ _. rewrite Hc. rewrite Z.sub_diag. vm_compute. reflexivity.
Qed.

(** C3 as amended.  Take two decision cycles run one after the other.  If
    all the clock readings made during the two are less than the cooldown
    apart,
    then for every tier at most one start or stop of that tier is
    performed across both cycles.  If the second cycle's readings are all
    more than the cooldown after the first cycle's, then both cycles may
    perform a transition of the same tier: for each of the three tiers
    there is such a run. *)
Theorem C3_cooldown_between_cycles :
  (forall (w : World) (cfg : InstanceGroup),
      let w1 := snd (handle_request w) in
      let w2 := snd (handle_request w1) in
      readings_within cooldown w w2 ->
      (tier_transitions_performed cfg w w2 <= 1)%nat)
  /\ (forall (group : string) (cfg : InstanceGroup),
        In (group, cfg) INSTANCE_GROUPS ->
        exists w : World,
          let w1 := snd (handle_request w) in
          let w2 := snd (handle_request w1) in
          readings_apart cooldown w w1 w2
          /\ tier_transitions_performed cfg w w1 = 1%nat
          /\ tier_transitions_performed cfg w1 w2 = 1%nat).
Proof.
  split.
  - intros w cfg w1 w2 Hin.
    apply Nat.le_trans with (transitions_performed w w2).
    + apply tier_le_all.
    + exact (two_cycles_perform_at_most_one w Hin).
  - intros group cfg [H|[H|[H|[]]]]; injection H as <- <-.
    + exists (two_spaced_cycles []).
      split; [apply spaced_cycles_apart|split]; vm_compute; reflexivity.
    + exists (two_spaced_cycles [small_ids; medium_ids]).
      split; [apply spaced_cycles_apart|split]; vm_compute; reflexivity.
    + exists (two_spaced_cycles [small_ids; large_ids]).
      split; [apply spaced_cycles_apart|split]; vm_compute; reflexivity.
Qed.

Lemma C3_cooldown_between_cycles_witness :
  let w := medium_active_world in
  let w2 := snd (handle_request (snd (handle_request w))) in
  readings_within cooldown w w2
  /\ (tier_transitions_performed small_tier w w2 <= 1)%nat.
Proof.
  cbn zeta.
  assert (H : readings_within cooldown medium_active_world
                (snd (handle_request (snd (handle_request medium_active_world)))))
    by (apply (steady_clock_within 0); reflexivity).
  split; [exact H|].
  exact (proj1 C3_cooldown_between_cycles medium_active_world small_tier H).
Defined.

(** C3 as stated fails: that the second cycle begins less than the
    cooldown after the first is not enough.  Two requests arrive nine
    seconds apart on a fleet that keeps showing every instance stopped.
    The first cycle starts the small tier and stamps the cooldown at
    0.5 s.  The second cycle begins at 9 s, but reads the clock for the
    cooldown check only at 11 s, 10.5 s after the stamp: it starts the
    small tier again.  Two starts of one tier are performed across the two
    cycles. *)
Lemma C3_counterexample :
  let w := nine_seconds_apart_world in
  let w1 := snd (handle_request w) in
  let w2 := snd (handle_request w1) in
  ticks w = 0%nat /\ ticks w1 = 3%nat /\ ticks w2 = 7%nat
  /\ map (clock w) (seq 0 7)
     = [0; 0; 500000; timedelta_seconds 9; timedelta_seconds 9;
        timedelta_seconds 11; timedelta_seconds 11]
  /\ clock w (ticks w1) - clock w (ticks w) < cooldown
  /\ clock w (ticks w1) - clock w (pred (ticks w1)) < cooldown
  /\ LAST_SCALING_TIME w1 = Some 500000
  /\ map request (since w w1)
     = [DescribeInstances small_ids; StartInstances small_ids;
        DescribeInstances medium_ids; DescribeInstances large_ids]
  /\ map request (since w1 w2)
     = [DescribeInstances small_ids; StartInstances small_ids;
        DescribeInstances medium_ids; DescribeInstances large_ids]
  /\ tier_transitions_performed small_tier w w1 = 1%nat
  /\ tier_transitions_performed small_tier w1 w2 = 1%nat
  /\ tier_transitions_performed small_tier w w2 = 2%nat
  /\ ~ (tier_transitions_performed small_tier w w2 <= 1)%nat.
Proof.
  cbn zeta.
  assert (P : tier_transitions_performed small_tier nine_seconds_apart_world
                (snd (handle_request (snd (handle_request nine_seconds_apart_world))))
              = 2%nat)
    by (vm_compute; reflexivity).
  conjs; try (vm_compute; reflexivity).
  rewrite P. lia.
Qed.

(** C6 as amended.  The cooldown timestamp is one value for all tiers.
    (1) While
    less than the cooldown has passed since it was set, a reconciliation
    issues no start and no stop, whichever instances and operation it is
    for.  (2) A performed start or stop sets it to a clock reading of that
    run.  (3) So in any run of decision cycles and status queries whose
    clock readings are all less than the cooldown apart, at most one start
    or stop is performed and no start or stop call, for any tier, is
    issued after it.  (4) In particular a decision cycle whose clock
    readings are all less than the cooldown apart issues at most one start
    or stop call.  (5) A cycle can thus start the target tier and leave
    the tier that was active running (the later tier is skipped, cooldown
    active), and (6) it can stop the tier that was active and leave the
    target tier stopped. *)
Theorem C6_cooldown_is_global :
  (forall (operation : string) (instance_ids : list string) (w : World)
          (t : datetime),
      LAST_SCALING_TIME w = Some t ->
      clock w (ticks w) - t < cooldown ->
      transitions_issued w (snd (manage_instances operation instance_ids w)) = 0%nat
      /\ LAST_SCALING_TIME (snd (manage_instances operation instance_ids w)) = Some t)
  /\ (forall (operation : string) (instance_ids : list string) (w : World),
        transitions_performed w (snd (manage_instances operation instance_ids w))
        = 1%nat ->
        exists k : nat,
          (ticks w <= k < ticks (snd (manage_instances operation instance_ids w)))%nat
          /\ LAST_SCALING_TIME (snd (manage_instances operation instance_ids w))
             = Some (clock w k))
  /\ (forall (routes : list Route) (w : World),
        readings_within cooldown w (serve_all routes w) ->
        (transitions_performed w (serve_all routes w) <= 1)%nat
        /\ issued_after_performed (since w (serve_all routes w)) = 0%nat)
  /\ (forall w : World,
        readings_within cooldown w (snd (handle_request w)) ->
        (transitions_issued w (snd (handle_request w)) <= 1)%nat)
  /\ (let w := medium_active_world in
      let w' := snd (handle_request w) in
      observed_state w medium_ids = Ok "running"%string
      /\ cycle_target w = "small"%string
      /\ map request (since w w')
         = [DescribeInstances small_ids; StartInstances small_ids;
            DescribeInstances medium_ids; DescribeInstances large_ids]
      /\ skipn (List.length (logged w)) (logged w')
         = [(INFO, StartedInstances small_ids); (WARNING, CooldownActive);
            (INFO, AlreadyInState large_ids "stopped")])
  /\ (let w := rising_load_world in
      let w' := snd (handle_request w) in
      observed_state w small_ids = Ok "running"%string
      /\ cycle_target w = "large"%string
      /\ map request (since w w')
         = [DescribeInstances small_ids; StopInstances small_ids;
            DescribeInstances medium_ids; DescribeInstances large_ids]
      /\ skipn (List.length (logged w)) (logged w')
         = [(INFO, StoppedInstances small_ids);
            (INFO, AlreadyInState medium_ids "stopped");
            (WARNING, CooldownActive)]).
Proof.
  split; [exact manage_instances_cooling|].
  split; [exact manage_instances_stamps|].
  split; [exact run_within_cooldown|].
  split; [exact cycle_issues_at_most_one|].
  split; repeat split; vm_compute; reflexivity.
Qed.

Lemma C6_cooldown_is_global_witness :
  let w := rising_load_world in
  readings_within cooldown w (snd (handle_request w))
  /\ (transitions_issued w (snd (handle_request w)) <= 1)%nat.
Proof.
  cbn zeta.
  assert (H : readings_within cooldown rising_load_world
                (snd (handle_request rising_load_world)))
    by (apply (steady_clock_within 100000); reflexivity).
  split; [exact H|].
  exact (proj1 (proj2 (proj2 (proj2 C6_cooldown_is_global))) rising_load_world H).
Defined.

(** C6 as stated fails: a single decision cycle can issue more than one
    start or stop.  The cooldown is measured on the clock, not per cycle:
    on a fleet whose medium tier is running, a first request whose cycle
    reads the clock every eleven seconds starts the small tier, stamps the
    cooldown at 22 s, and at its second tier reads 33 s, eleven seconds
    after the stamp: the stop of the medium tier goes through as well.
    Both calls are performed and no tier is skipped as cooldown-active. *)
Lemma C6_counterexample :
  let w := slow_world in
  let w' := snd (handle_request w) in
  observed_state w medium_ids = Ok "running"%string
  /\ cycle_target w = "small"%string
  /\ map (clock w) (seq (ticks w) (ticks w' - ticks w))
     = map timedelta_seconds [0; 11; 22; 33; 44]
  /\ map request (since w w')
     = [DescribeInstances small_ids; StartInstances small_ids;
        DescribeInstances medium_ids; StopInstances medium_ids;
        DescribeInstances large_ids]
  /\ skipn (List.length (logged w)) (logged w')
     = [(INFO, StartedInstances small_ids);
        (INFO, StoppedInstances medium_ids);
        (INFO, AlreadyInState large_ids "stopped")]
  /\ transitions_performed w w' = 2%nat
  /\ transitions_issued w w' = 2%nat
  /\ ~ (transitions_issued w w' <= 1)%nat.
Proof.
  cbn zeta.
  assert (P : transitions_issued slow_world (snd (handle_request slow_world))
              = 2%nat)
    by (vm_compute; reflexivity).
  conjs; try (vm_compute; reflexivity).
  rewrite P. lia.
Qed.

(** Where the cooldown ends: a cycle whose clock readings come eleven
    seconds apart finds the gate open again at its second tier and issues
    a start and a stop. *)
Example slow_cycle_passes_the_gate_twice :
  let w := slow_world in
  let w' := snd (handle_request w) in
  map request (since w w')
  = [DescribeInstances small_ids; StartInstances small_ids;
     DescribeInstances medium_ids; StopInstances medium_ids;
     DescribeInstances large_ids]
  /\ transitions_issued w w' = 2%nat
  /\ ~ readings_within cooldown w w'.
Proof.
  cbn zeta.
  split; [vm_compute; reflexivity|].
  split; [vm_compute; reflexivity|].
  intros H.
  assert (T : ticks (snd (handle_request slow_world)) = 5%nat)
    by (vm_compute; reflexivity).
  assert (L : (ticks slow_world <= 1 < ticks (snd (handle_request slow_world)))%nat)
    by (rewrite T; cbn; lia).
  assert (L0 : (ticks slow_world <= 0 < ticks (snd (handle_request slow_world)))%nat)
    by (rewrite T; cbn; lia).
  specialize (H 1%nat 0%nat L L0). vm_compute in H. discriminate H.
Qed.

(** ** A burst of requests *)

Lemma loop_extends target_group groups w r w' :
  for_each groups (reconcile target_group) w = (r, w') -> extends w w'.
Proof.
  apply (for_each_invariant (fun _ v => extends w v)); [|apply extends_refl].
  intros g v r1 v1 Hv Hrun.
  destruct (reconcile_Managed _ _ _ _ _ Hrun) as [op [_ [_ Hm]]].
  apply extends_trans with v; [exact Hv|].
  exact (Managed_extends _ _ _ _ _ Hm).
Qed.

(** What a decision cycle leaves behind: the window as recorded and
    pruned at its start, the same oracles, at least two more readings. *)
Lemma handle_request_leaves (w : World) :
  let w' := snd (handle_request w) in
  REQUEST_LOG w' = REQUEST_LOG (entering w)
  /\ clock w' = clock w
  /\ (S (S (ticks w)) <= ticks w')%nat.
Proof.
  cbn zeta. rewrite handle_request_run.
  destruct (for_each INSTANCE_GROUPS (reconcile (cycle_target w)) (entering w))
    as [[[]|e] w'] eqn:Hloop; cbn [snd];
    pose proof (loop_window _ _ _ _ _ Hloop) as Hw;
    pose proof (loop_extends _ _ _ _ _ Hloop) as [Hc _ Ht _];
    cbn [entering ticks clock] in Hc, Ht; auto.
Qed.

(** A decision cycle answers with its target and rate, or with the error
    the loop raised. *)
Lemma handle_request_answer (w : World) :
  fst (handle_request w)
  = Ok (Success (cycle_target w) (round (cycle_rate w) 2), 200)
  \/ exists e, fst (handle_request w) = Ok (Failed (str e), 500).
Proof.
  rewrite handle_request_run.
  destruct (for_each INSTANCE_GROUPS (reconcile (cycle_target w)) (entering w))
    as [[[]|e] w']; cbn [fst]; [now left|right; now exists e].
Qed.

Lemma reconcile_outcome target_group g w w' :
  reconcile target_group g w = (Ok tt, w') ->
  exists o, logged w' = logged w ++ [o] /\ outcome_of target_group g o.
Proof.
  intros Hrun. destruct (reconcile_Managed _ _ _ _ _ Hrun) as [op [Hop [Htg Hm]]].
  unfold outcome_of.
  assert (Hif : (fst g =? target_group)%string = (op =? "start")%string).
  { destruct (String.eqb_spec (fst g) target_group) as [E|E];
      destruct (String.eqb_spec op "start") as [E'|E']; tauto. }
  rewrite Hif.
  remember (Ok tt) as r eqn:Hr.
  destruct Hm as [e0 He|s Hs Hd|s t Hs Hn Hl Hc|s k a rs Hs Hn Hg Ha Hr'
                 |s k a e0 Hs Hn Hg Ha Hr'|s k Hs Hn Hg Ha];
    try discriminate Hr.
  - eexists. split; [reflexivity|]. right.
    destruct Hd as [[-> ->]|[-> ->]]; cbn; now left.
  - eexists. split; [reflexivity|]. now left.
  - eexists. split; [reflexivity|]. right. unfold done_message.
    destruct Hop as [-> | ->]; cbn; now right.
  - exfalso. unfold action_of in Ha. destruct Hop as [-> | ->]; discriminate Ha.
Qed.

Lemma loop_outcomes target_group groups :
  forall w w',
    for_each groups (reconcile target_group) w = (Ok tt, w') ->
    exists os,
      logged w' = logged w ++ os /\ Forall2 (outcome_of target_group) groups os.
Proof.
  induction groups as [|g groups IH]; intros w w'; cbn [for_each]; run.
  - intros H. injection H as <-. exists []. split; [now rewrite app_nil_r|constructor].
  - destruct (reconcile target_group g w) as [[[]|e] w1] eqn:Hg; [|discriminate].
    intros Hrest.
    destruct (reconcile_outcome _ _ _ _ Hg) as [o [Ho Hout]].
    destruct (IH _ _ Hrest) as [os [Hos Hall]].
    exists (o :: os). split; [|now constructor].
    rewrite Hos, Ho. now rewrite <- app_assoc.
Qed.

(** A cycle that answers with success has logged one outcome per tier,
    in the order of the tiers. *)
Lemma handle_request_outcomes (w : World) (target_group : string) (rate : Q) :
  fst (handle_request w) = Ok (Success target_group rate, 200) ->
  target_group = cycle_target w
  /\ exists os,
       logged (snd (handle_request w)) = logged w ++ os
       /\ Forall2 (outcome_of target_group) INSTANCE_GROUPS os.
Proof.
  rewrite handle_request_run.
  destruct (for_each INSTANCE_GROUPS (reconcile (cycle_target w)) (entering w))
    as [[[]|e] w'] eqn:Hloop; cbn [fst snd]; [|discriminate].
  intros H. injection H as <- _. split; [reflexivity|].
  exact (loop_outcomes _ _ _ _ Hloop).
Qed.

Lemma choose_small_iff (r : Q) :
  choose_target_group r = "small"%string <-> (r <= low_cutover)%Q.
Proof.
  split; [|apply choose_small].
  unfold choose_target_group. fold low_cutover high_cutover.
  destruct (Qle_bool r low_cutover) eqn:E; [intros _; now apply Qle_bool_iff|].
  destruct (Qle_bool r high_cutover); discriminate.
Qed.

Lemma three_over_span (s : timedelta) :
  0 < s ->
  ((inject_Z 3 / total_seconds s <= low_cutover)%Q <-> timedelta_seconds 1 <= s)
  /\ (s <= timedelta_seconds 1 -> (3 <= inject_Z 3 / total_seconds s)%Q).
Proof.
  intros Hs. destruct s as [|p|p]; try lia.
  unfold total_seconds, low_cutover, timedelta_seconds, microseconds_per_second,
    Qle, Qdiv, Qmult, Qinv.
  cbn [Qnum Qden inject_Z THRESHOLD_T1 HYSTERESIS Z.sub Z.add Z.opp Z.pos_sub
       Pos.pred_double]. cbn.
  split; [split|]; lia.
Qed.

(** C10 as amended.  Start from an empty request window and let three
    traffic events follow one another, all clock readings of the three
    cycles lying within one second.  The first event yields rate 0.0 and
    target small.  All three events are still in the window at the third,
    which yields the rate [3 / span], [span] being the seconds from the
    first recorded timestamp to the third, when that span is positive:
    a rate of at least 3, so the target is small only when the span is
    exactly one second and is medium or large otherwise.  When the span is
    not positive the third event yields rate 0.0 and target small.  A
    cycle answers with these values unless a fleet-controller call raised;
    and a cycle that answers with success has logged exactly one outcome
    per tier, which for a tier other than the target is that it was
    stopped, that it was already stopped, or that the cooldown is
    active. *)
Theorem C10_burst_of_three (w : World) :
  REQUEST_LOG w = [] ->
  let w1 := snd (handle_request w) in
  let w2 := snd (handle_request w1) in
  let w3 := snd (handle_request w2) in
  readings_at_most (timedelta_seconds 1) w w3 ->
  let first := clock w (ticks w) in
  let second := clock w (ticks w1) in
  let third := clock w (ticks w2) in
  let rate := if 0 <? third - first
              then (inject_Z 3 / total_seconds (third - first)%Z)%Q
              else 0%Q in
  (fst (handle_request w) = Ok (Success "small" (round 0 2), 200)
   \/ exists e, fst (handle_request w) = Ok (Failed (str e), 500))
  /\ REQUEST_LOG w3 = [mkEntry first; mkEntry second; mkEntry third]
  /\ (fst (handle_request w2)
      = Ok (Success (choose_target_group rate) (round rate 2), 200)
      \/ exists e, fst (handle_request w2) = Ok (Failed (str e), 500))
  /\ (0 < third - first ->
      (3 <= rate)%Q
      /\ (choose_target_group rate = "small"%string
          <-> third - first = timedelta_seconds 1))
  /\ (third - first <= 0 ->
      rate = 0%Q /\ choose_target_group rate = "small"%string)
  /\ (forall (target_group : string) (r : Q),
        fst (handle_request w2) = Ok (Success target_group r, 200) ->
        exists os,
          logged w3 = logged w2 ++ os
          /\ Forall2 (outcome_of target_group) INSTANCE_GROUPS os).
Proof.
  intros Hempty w1 w2 w3 Hin first second third rate.
  destruct (handle_request_leaves w) as [L1 [C1 T1]]. fold w1 in L1, C1, T1.
  destruct (handle_request_leaves w1) as [L2 [C2 T2]]. fold w2 in L2, C2, T2.
  destruct (handle_request_leaves w2) as [L3 [C3 T3]]. fold w3 in L3, C3, T3.
  assert (Hfresh : forall i j : nat,
             (ticks w <= i < ticks w3)%nat -> (ticks w <= j < ticks w3)%nat ->
             age (clock w i) (mkEntry (clock w j)) <= window_length).
  { intros i j Hi Hj. specialize (Hin i j Hi Hj).
    unfold age, window_length, timedelta_seconds, REQUEST_LOG_WINDOW,
      microseconds_per_second in *. cbn [timestamp]. lia. }
  assert (E1 : REQUEST_LOG (entering w) = [mkEntry first]).
  { unfold entering. cbn [REQUEST_LOG]. rewrite Hempty. cbn [app].
    apply prune_all_fresh. repeat constructor. apply Hfresh; lia. }
  assert (E2 : REQUEST_LOG (entering w1) = [mkEntry first; mkEntry second]).
  { unfold entering. cbn [REQUEST_LOG]. rewrite L1, E1, C1. cbn [app].
    apply prune_all_fresh. repeat constructor; apply Hfresh; lia. }
  assert (E3 : REQUEST_LOG (entering w2)
               = [mkEntry first; mkEntry second; mkEntry third]).
  { unfold entering. cbn [REQUEST_LOG]. rewrite L2, E2, C2, C1. cbn [app].
    apply prune_all_fresh. repeat constructor; apply Hfresh; lia. }
  assert (R1 : cycle_rate w = 0%Q).
  { unfold cycle_rate. rewrite E1. reflexivity. }
  assert (R3 : cycle_rate w2 = rate).
  { unfold cycle_rate. rewrite E3. reflexivity. }
  assert (Hspan : third - first <= timedelta_seconds 1).
  { apply Hin; lia. }
  conjs.
  - destruct (handle_request_answer w) as [H|H]; [left|right; exact H].
    rewrite H. unfold cycle_target. rewrite R1. reflexivity.
  - now rewrite L3.
  - destruct (handle_request_answer w2) as [H|H]; [left|right; exact H].
    rewrite H. unfold cycle_target. now rewrite R3.
  - intros Hpos. unfold rate.
    assert (Hlt : (0 <? third - first) = true) by now apply Z.ltb_lt.
    rewrite Hlt. destruct (three_over_span _ Hpos) as [Hiff Hge].
    split; [now apply Hge|].
    rewrite choose_small_iff, Hiff. lia.
  - intros Hneg. unfold rate.
    assert (Hlt : (0 <? third - first) = false) by now apply Z.ltb_ge.
    rewrite Hlt. split; reflexivity.
  - intros tg r H.
    destruct (handle_request_outcomes _ _ _ H) as [_ Hos]. exact Hos.
Qed.

Lemma burst_world_readings :
  readings_at_most (timedelta_seconds 1) burst_world
    (snd (handle_request (snd (handle_request (snd (handle_request burst_world)))))).
Proof.
  assert (T : ticks (snd (handle_request (snd (handle_request
                (snd (handle_request burst_world)))))) = 10%nat)
    by (vm_compute; reflexivity).
  intros i j Hi Hj. rewrite T in Hi, Hj.
  change (clock burst_world) with (fun k => 100000 * Z.of_nat k).
  unfold timedelta_seconds, microseconds_per_second. cbn beta. lia.
Qed.

Lemma C10_burst_of_three_witness :
  let w2 := snd (handle_request (snd (handle_request burst_world))) in
  REQUEST_LOG (snd (handle_request w2))
  = [mkEntry 0; mkEntry 200000; mkEntry 600000].
Proof.
  exact (proj1 (proj2 (C10_burst_of_three burst_world eq_refl burst_world_readings))).
Defined.

(** C10 as stated fails: from an empty window, three events 0.2 s and
    0.4 s apart, every clock reading of the three cycles within one
    second, on a fleet that answers every call; the third event yields
    rate 5.0 and target medium, not 0.0 and small. *)
Lemma C10_counterexample :
  let w := burst_world in
  let w1 := snd (handle_request w) in
  let w2 := snd (handle_request w1) in
  let w3 := snd (handle_request w2) in
  REQUEST_LOG w = []
  /\ readings_at_most (timedelta_seconds 1) w w3
  /\ REQUEST_LOG w3 = [mkEntry 0; mkEntry 200000; mkEntry 600000]
  /\ fst (handle_request w2) = Ok (Success "medium" (500 # 100), 200)
  /\ ~ (500 # 100 == 0)%Q
  /\ ~ (exists r : Q,
          fst (handle_request w2) = Ok (Success "small" r, 200) /\ (r == 0)%Q).
Proof.
  cbn zeta.
  split; [reflexivity|].
  split; [exact burst_world_readings|].
  split; [vm_compute; reflexivity|].
  assert (H : fst (handle_request (snd (handle_request (snd (handle_request burst_world)))))
              = Ok (Success "medium" (500 # 100), 200))
    by (vm_compute; reflexivity).
  split; [exact H|].
  split; [intros E; vm_compute in E; discriminate E|].
  intros [r [Hr _]]. rewrite H in Hr. discriminate Hr.
Qed.

(** * Further properties *)

(** ** The selector *)

Lemma choose_cases (r : Q) :
  (choose_target_group r = "small"%string /\ (r <= low_cutover)%Q)
  \/ (choose_target_group r = "medium"%string
      /\ (low_cutover < r)%Q /\ (r <= high_cutover)%Q)
  \/ (choose_target_group r = "large"%string /\ (high_cutover < r)%Q).
Proof.
  destruct (Qlt_le_dec low_cutover r) as [L1|L1].
  - destruct (Qlt_le_dec high_cutover r) as [L2|L2].
    + right; right. split; [now apply choose_large|assumption].
    + right; left. split; [now apply choose_medium|now split].
  - left. split; [now apply choose_small|assumption].
Qed.

(** X1.  The selector always names one of the configured groups, and a
    larger rate never selects an earlier (smaller) group than a smaller
    rate does. *)
Theorem X1_selector_monotone (r1 r2 : Q) :
  (r1 <= r2)%Q ->
  In (choose_target_group r1) (map fst INSTANCE_GROUPS)
  /\ In (choose_target_group r2) (map fst INSTANCE_GROUPS)
  /\ (tier_index (choose_target_group r1) <= tier_index (choose_target_group r2))%nat.
Proof.
  intros Hle.
  assert (Hin : forall r, In (choose_target_group r) (map fst INSTANCE_GROUPS)).
  { intros r. destruct (choose_cases r) as [[-> _]|[[-> _]|[-> _]]]; cbn; auto. }
  split; [apply Hin|]. split; [apply Hin|].
  assert (Hlh : (low_cutover <= high_cutover)%Q) by (vm_compute; discriminate).
  destruct (choose_cases r1) as [[-> H1]|[[-> [H1 H1']]|[-> H1]]];
    destruct (choose_cases r2) as [[-> H2]|[[-> [H2 H2']]|[-> H2]]];
    try (vm_compute; lia); exfalso.
  - apply (Qlt_not_le _ _ H1). now apply Qle_trans with r2.
  - apply (Qlt_not_le _ _ H1).
    apply Qle_trans with r2; [assumption|]. now apply Qle_trans with low_cutover.
  - apply (Qlt_not_le _ _ H1). now apply Qle_trans with r2.
Qed.

Lemma X1_selector_monotone_witness :
  (tier_index (choose_target_group (7 # 2))
   <= tier_index (choose_target_group (17 # 2)))%nat.
Proof.
  apply (X1_selector_monotone (7 # 2) (17 # 2)). vm_compute. discriminate.
Defined.

(** ** The window over time *)

Lemma last_In_nonempty {A} (l : list A) (d : A) : l <> [] -> In (last l d) l.
Proof.
  induction l as [|x l IH]; [congruence|]. intros _.
  destruct l as [|y l]; [now left|].
  right. apply IH. discriminate.
Qed.

Lemma hd_In_nonempty {A} (l : list A) (d : A) : l <> [] -> In (hd d l) l.
Proof. destruct l; [congruence|]. intros _. now left. Qed.

Lemma rate_at_least (n s : Z) :
  0 <= n -> 0 < s -> s <= window_length ->
  (0 <= inject_Z n / total_seconds s)%Q
  /\ (inject_Z n / inject_Z REQUEST_LOG_WINDOW <= inject_Z n / total_seconds s)%Q.
Proof.
  intros Hn Hs Hw. destruct s as [|p|p]; try lia.
  unfold window_length, timedelta_seconds, microseconds_per_second,
    REQUEST_LOG_WINDOW in *.
  unfold total_seconds, Qle, Qdiv, Qmult, Qinv. cbn [Qnum Qden inject_Z].
  cbn. split; nia.
Qed.

(** X2.  The reported rate is never negative.  When no entry of the
    window is later than the clock reading of the computation (the clock
    has not gone back), the retained entries span at most the window
    length, so a rate that is not 0 is at least the number of retained
    entries (two or more) over the window length: nothing between 0 and
    1/30 per second is ever reported. *)
Theorem X2_rate_floor (w : World) :
  let now := clock w (ticks w) in
  let kept := REQUEST_LOG (snd (calculate_arrival_rate w)) in
  exists rate : Q,
    fst (calculate_arrival_rate w) = Ok rate
    /\ (0 <= rate)%Q
    /\ (none_later now (REQUEST_LOG w) ->
        rate = 0%Q
        \/ ((2 <= List.length kept)%nat
            /\ (inject_Z (Z.of_nat (List.length kept)) / inject_Z REQUEST_LOG_WINDOW
                <= rate)%Q
            /\ (1 # 30 <= rate)%Q)).
Proof.
  cbn zeta. rewrite calculate_arrival_rate_run. cbn [fst snd pruned REQUEST_LOG].
  set (now := clock w (ticks w)). set (kept := prune now (REQUEST_LOG w)).
  exists (estimate kept). split; [reflexivity|].
  unfold estimate.
  destruct (Nat.ltb_spec (List.length kept) 2) as [Hshort|Hlong].
  { split; [apply Qle_refl|]. intros _. now left. }
  destruct (Z.ltb_spec 0 (span kept)) as [Hpos|Hneg].
  2:{ split; [apply Qle_refl|]. intros _. now left. }
  assert (Hn : 0 <= Z.of_nat (List.length kept)) by lia.
  split.
  - destruct (Z.le_gt_cases (span kept) window_length) as [Hw|Hw].
    + now apply rate_at_least.
    + unfold total_seconds, Qle, Qdiv, Qmult, Qinv.
      destruct (span kept) as [|p|p]; try lia. cbn. nia.
  - intros Hlater. right. split; [exact Hlong|].
    assert (Hne : kept <> []).
    { intros E. rewrite E in Hlong. cbn in Hlong. lia. }
    assert (Hw : span kept <= window_length).
    { unfold span.
      pose proof (last_In_nonempty kept (mkEntry 0) Hne) as Hl.
      pose proof (hd_In_nonempty kept (mkEntry 0) Hne) as Hh.
      pose proof (prune_retained now (REQUEST_LOG w)) as Hret.
      rewrite Forall_forall in Hret. specialize (Hret _ Hh).
      apply filter_In in Hl. destruct Hl as [Hl _].
      unfold none_later in Hlater. rewrite Forall_forall in Hlater.
      specialize (Hlater _ Hl). unfold age in Hret. fold kept in Hret. lia. }
    destruct (rate_at_least _ _ Hn Hpos Hw) as [_ Hfloor].
    split; [exact Hfloor|].
    apply Qle_trans with (inject_Z (Z.of_nat (List.length kept))
                          / inject_Z REQUEST_LOG_WINDOW)%Q; [|exact Hfloor].
    unfold Qle, Qdiv, Qmult, Qinv, REQUEST_LOG_WINDOW. cbn. lia.
Qed.

Lemma X2_rate_floor_witness :
  exists rate : Q,
    fst (calculate_arrival_rate two_requests_world) = Ok rate /\ (1 # 30 <= rate)%Q.
Proof.
  destruct (X2_rate_floor two_requests_world) as [rate [Hr [_ Hfloor]]].
  exists rate. split; [exact Hr|].
  assert (Hlater : none_later (clock two_requests_world (ticks two_requests_world))
                     (REQUEST_LOG two_requests_world)).
  { repeat constructor; cbn; lia. }
  destruct (Hfloor Hlater) as [Hz|[_ [_ H]]]; [|exact H].
  rewrite Hz in Hr. vm_compute in Hr. discriminate Hr.
Defined.

Lemma prune_prune (t1 t2 : datetime) (log : list Entry) :
  t1 <= t2 -> prune t2 (prune t1 log) = prune t2 log.
Proof.
  intros Hle. rewrite !prune_filter_age.
  induction log as [|e log IH]; [reflexivity|]. cbn [filter].
  destruct (Z.leb_spec (age t1 e) window_length) as [H1|H1]; cbn [filter].
  - now rewrite IH.
  - rewrite IH.
    destruct (Z.leb_spec (age t2 e) window_length) as [H2|H2]; [|reflexivity].
    unfold age in *. lia.
Qed.

(** X3.  Pruning composes along a clock that does not go back: after two
    rate computations in a row the window is what the second one alone
    would have left of the original window, and the second reports the
    rate of exactly that window.  A rate computation made in between
    (a status query, say) changes nothing for the later ones. *)
Theorem X3_pruning_composes (w : World) :
  let now1 := clock w (ticks w) in
  let now2 := clock w (S (ticks w)) in
  let w1 := snd (calculate_arrival_rate w) in
  let w2 := snd (calculate_arrival_rate w1) in
  now1 <= now2 ->
  REQUEST_LOG w2 = prune now2 (REQUEST_LOG w)
  /\ fst (calculate_arrival_rate w1) = Ok (estimate (prune now2 (REQUEST_LOG w))).
Proof.
  cbn zeta. intros Hle.
  rewrite (calculate_arrival_rate_run w). cbn [snd].
  rewrite calculate_arrival_rate_run. cbn [fst snd pruned REQUEST_LOG ticks clock].
  rewrite (prune_prune _ _ _ Hle). split; reflexivity.
Qed.

Lemma X3_pruning_composes_witness :
  REQUEST_LOG (snd (calculate_arrival_rate
                      (snd (calculate_arrival_rate spaced_requests_world))))
  = prune (timedelta_seconds 75) (REQUEST_LOG spaced_requests_world).
Proof.
  apply (X3_pruning_composes spaced_requests_world). cbn. lia.
Defined.

Lemma time_ordered_filter (f : Entry -> bool) (log : list Entry) :
  time_ordered log -> time_ordered (filter f log).
Proof.
  induction log as [|e log IH]; [trivial|]. intros [Hhd Htl]. cbn [filter].
  destruct (f e); [|now apply IH].
  split; [|now apply IH].
  apply Forall_forall. intros e' He'. apply filter_In in He'.
  rewrite Forall_forall in Hhd. now apply Hhd.
Qed.

Lemma time_ordered_append (log : list Entry) (e : Entry) :
  time_ordered log -> none_later (timestamp e) log -> time_ordered (log ++ [e]).
Proof.
  induction log as [|x log IH]; intros Hord Hlater; cbn.
  - split; constructor.
  - destruct Hord as [Hhd Htl]. inversion Hlater as [|? ? Hx Hrest]; subst.
    split; [|now apply IH].
    apply Forall_app. split; [assumption|]. now repeat constructor.
Qed.

Lemma none_later_mono (t t' : datetime) (log : list Entry) :
  t <= t' -> none_later t log -> none_later t' log.
Proof.
  intros Hle H. unfold none_later in *. rewrite Forall_forall in *.
  intros e He. specialize (H e He). lia.
Qed.

Lemma none_later_filter (f : Entry -> bool) (t : datetime) (log : list Entry) :
  none_later t log -> none_later t (filter f log).
Proof.
  unfold none_later. rewrite !Forall_forall. intros H e He.
  apply filter_In in He. now apply H.
Qed.

(** What a status query leaves behind: the window pruned against its one
    clock reading, the same oracles. *)
Lemma get_metrics_leaves (w : World) :
  let w' := snd (get_metrics w) in
  REQUEST_LOG w' = prune (clock w (ticks w)) (REQUEST_LOG w)
  /\ clock w' = clock w
  /\ ticks w' = S (ticks w).
Proof.
  cbn zeta. unfold get_metrics. run. rewrite status_checks_run. cbn iota beta.
  rewrite calculate_arrival_rate_run. cbn iota beta. run.
  repeat split; reflexivity.
Qed.

Lemma serve_sound (route : Route) (w : World) :
  clock_monotone w -> window_sound w ->
  clock_monotone (serve route w) /\ window_sound (serve route w).
Proof.
  intros Hmono [Hord Hlater]. destruct route; cbn [serve].
  - destruct (handle_request_leaves w) as [Hlog [Hclock Hticks]].
    set (w' := snd (handle_request w)) in *.
    split; [intros i j Hij; rewrite Hclock; now apply Hmono|].
    unfold window_sound. rewrite Hlog, Hclock. unfold entering, prune.
    cbn [REQUEST_LOG]. split.
    + apply time_ordered_filter. now apply time_ordered_append.
    + apply none_later_filter. unfold none_later. apply Forall_app. split.
      * apply (none_later_mono (clock w (ticks w))); [apply Hmono; lia|assumption].
      * repeat constructor. cbn [timestamp]. apply Hmono. lia.
  - destruct (get_metrics_leaves w) as [Hlog [Hclock Hticks]].
    set (w' := snd (get_metrics w)) in *.
    split; [intros i j Hij; rewrite Hclock; now apply Hmono|].
    unfold window_sound. rewrite Hlog, Hclock, Hticks. unfold prune. split.
    + now apply time_ordered_filter.
    + apply none_later_filter.
      apply (none_later_mono (clock w (ticks w))); [apply Hmono; lia|assumption].
Qed.

(** X4.  With a wall clock that never goes back, the request window stays
    in time order, and holds nothing later than the next clock reading,
    through every run of traffic events and status queries that starts
    from such a window (an empty one, for instance). *)
Theorem X4_window_stays_in_time_order (routes : list Route) (w : World) :
  clock_monotone w ->
  window_sound w ->
  window_sound (serve_all routes w)
  /\ time_ordered (REQUEST_LOG (serve_all routes w)).
Proof.
  revert w. induction routes as [|route routes IH]; intros w Hmono Hsound.
  - split; [exact Hsound|exact (proj1 Hsound)].
  - cbn [serve_all fold_left].
    destruct (serve_sound route w Hmono Hsound) as [Hmono' Hsound'].
    exact (IH _ Hmono' Hsound').
Qed.

Lemma X4_window_stays_in_time_order_witness :
  time_ordered (REQUEST_LOG (serve_all [send_request; metrics; send_request]
                                       burst_world)).
Proof.
  apply (X4_window_stays_in_time_order [send_request; metrics; send_request]
                                       burst_world).
  - intros i j Hij. change (100000 * Z.of_nat i <= 100000 * Z.of_nat j). lia.
  - split; cbn; constructor.
Defined.

(** ** The actuator, case by case *)

Lemma gate_open_due (w : World) (k : nat) :
  gate_open w k ->
  LAST_SCALING_TIME w = None
  \/ exists t, LAST_SCALING_TIME w = Some t /\ cooldown <= clock w (ticks w) - t.
Proof.
  intros [Hn|t Ht Hel]; [now left|right]. now exists t.
Qed.

Lemma gate_open_unique (w : World) (k k' : nat) :
  gate_open w k -> gate_open w k' -> k = k'.
Proof.
  intros [Hn|t Ht Hel] [Hn'|t' Ht' Hel']; congruence.
Qed.



Lemma action_of_known (operation : string) (instance_ids : list string) :
  (operation = "start" \/ operation = "stop")%string ->
  action_of operation instance_ids <> None.
Proof. intros [-> | ->]; discriminate. Qed.



(** X6.  An operation that is neither "start" nor "stop" makes no fleet
    call beyond the describe and logs nothing, yet when the cooldown gate
    is open it returns normally with [LAST_SCALING_TIME] set to a fresh
    clock reading: it starts a cooldown without any transition. *)
Theorem X6_unknown_operation_stamps (operation : string)
        (instance_ids : list string) (w : World) (current_state : string)
        (k : nat) :
  operation <> "start"%string -> operation <> "stop"%string ->
  observed_state w instance_ids = Ok current_state ->
  gate_open w k ->
  manage_instances operation instance_ids w
  = (Ok tt,
     after w (Some (clock w k)) (S k)
           (history w ++ [describe_exchange w instance_ids]) []).
Proof.
  intros Hns Hnp Hobs Hgate.
  assert (Hnone : action_of operation instance_ids = None).
  { unfold action_of. apply String.eqb_neq in Hns, Hnp. now rewrite Hns, Hnp. }
  managed_by manage_instances_Managed Hrun r w'.
  destruct Hrun as [e0 He|s Hs Hd|s t Hs Hn Hl Hc|s k' a rs Hs Hn Hg Ha Hr
                   |s k' a e0 Hs Hn Hg Ha Hr|s k' Hs Hn Hg Ha];
    try congruence.
  - exfalso. destruct Hd as [[H _]|[H _]]; contradiction.
  - exfalso. destruct (gate_open_due _ _ Hgate) as [H|[t' [Ht' Hel]]];
      [congruence|]. rewrite Hl in Ht'. injection Ht' as <-. lia.
  - now rewrite (gate_open_unique _ _ _ Hg Hgate).
Qed.

Lemma X6_unknown_operation_stamps_witness :
  LAST_SCALING_TIME
    (snd (manage_instances "restart" small_ids (fresh_world all_stopped 42)))
  = Some 42.
Proof.
  rewrite (X6_unknown_operation_stamps "restart" small_ids
             (fresh_world all_stopped 42) "stopped" 0%nat).
  - reflexivity.
  - discriminate.
  - discriminate.
  - reflexivity.
  - now apply gate_never.
Defined.

(** X7.  A describe reply that holds no reservation, or whose first
    reservation holds no instance, makes [manage_instances] raise
    [IndexError]: the error is logged and passed on, no start or stop is
    issued, no clock is read and [LAST_SCALING_TIME] stays as it was,
    whatever the operation. *)
Theorem X7_empty_describe_reply (operation : string) (instance_ids : list string)
        (w : World) (reservations : list (list string)) :
  ec2_api w (history w) (DescribeInstances instance_ids) = Response reservations ->
  reservations = [] \/ (exists rest, reservations = [] :: rest) ->
  manage_instances operation instance_ids w
  = (Raise (IndexError "list index out of range"),
     after w (LAST_SCALING_TIME w) (ticks w)
           (history w ++ [describe_exchange w instance_ids])
           [(ERROR, AwsApiError "list index out of range")]).
Proof.
  intros Hreply Hempty.
  assert (Hobs : observed_state w instance_ids
                 = Raise (IndexError "list index out of range")).
  { unfold observed_state, describe_exchange. cbn [reply]. rewrite Hreply.
    destruct Hempty as [->|[rest ->]]; reflexivity. }
  managed_by manage_instances_Managed Hrun r w'.
  destruct Hrun as [e0 He|s Hs Hd|s t Hs Hn Hl Hc|s k' a rs Hs Hn Hg Ha Hr
                   |s k' a e0 Hs Hn Hg Ha Hr|s k' Hs Hn Hg Ha];
    try congruence.
  rewrite Hobs in He. injection He as <-. reflexivity.
Qed.

Lemma X7_empty_describe_reply_witness :
  fst (manage_instances "start" small_ids (fresh_world knows_nothing 0))
  = Raise (IndexError "list index out of range").
Proof.
  rewrite (X7_empty_describe_reply "start" small_ids
             (fresh_world knows_nothing 0) [] eq_refl (or_introl eq_refl)).
  reflexivity.
Defined.

(** ** The decision cycle, whatever the fleet answers *)

Lemma healthy_describe (w : World) (instance_ids : list string) (s : string) :
  observed_state w instance_ids = Ok s -> healthy (describe_exchange w instance_ids).
Proof.
  intros Hs e H. unfold failed_with, describe_exchange in H. cbn [request reply] in H.
  unfold observed_state, describe_exchange in Hs. cbn [reply] in Hs. congruence.
Qed.

Lemma healthy_action (operation : string) (instance_ids : list string)
      (a : Call) (rs : list (list string)) :
  action_of operation instance_ids = Some a -> healthy (mkExchange a (Response rs)).
Proof.
  intros Ha e H. apply action_of_transition in Ha.
  destruct Ha as [-> | ->]; discriminate H.
Qed.

Lemma failed_action (operation : string) (instance_ids : list string)
      (a : Call) (e : Exception) :
  action_of operation instance_ids = Some a -> failed_with e (mkExchange a (Fault e)).
Proof.
  intros Ha. apply action_of_transition in Ha. now destruct Ha as [-> | ->].
Qed.

(** The exchanges of one run of the actuator: all healthy when it returns,
    all healthy but the last when it raises. *)
Lemma Managed_health operation instance_ids w r w' :
  Managed operation instance_ids w r w' ->
  exists seg,
    history w' = history w ++ seg
    /\ match r with
       | Ok _ => Forall healthy seg
       | Raise e =>
           exists pre x,
             seg = pre ++ [x] /\ failed_with e x /\ Forall healthy pre
             /\ logged w' = logged w ++ [(ERROR, AwsApiError (str e))]
       end.
Proof.
  intros [e0 He|s Hs Hd|s t Hs Hn Hl Hc|s k a rs Hs Hn Hg Ha Hr
         |s k a e0 Hs Hn Hg Ha Hr|s k Hs Hn Hg Ha];
    eexists; (split; [reflexivity|]).
  - exists [], (describe_exchange w instance_ids). repeat split; auto.
  - repeat constructor. exact (healthy_describe _ _ _ Hs).
  - repeat constructor. exact (healthy_describe _ _ _ Hs).
  - repeat constructor.
    + exact (healthy_describe _ _ _ Hs).
    + exact (healthy_action _ _ _ _ Ha).
  - exists [describe_exchange w instance_ids], (mkExchange a (Fault e0)).
    repeat split; auto.
    + exact (failed_action _ _ _ _ Ha).
    + repeat constructor. exact (healthy_describe _ _ _ Hs).
  - repeat constructor. exact (healthy_describe _ _ _ Hs).
Qed.

Lemma loop_health target_group groups w r w' :
  for_each groups (reconcile target_group) w = (r, w') ->
  extends w w'
  /\ match r with
     | Ok _ => Forall healthy (since w w')
     | Raise e =>
         exists pre x lg,
           since w w' = pre ++ [x] /\ failed_with e x /\ Forall healthy pre
           /\ logged w' = lg ++ [(ERROR, AwsApiError (str e))]
     end.
Proof.
  apply (for_each_invariant
           (fun r v =>
              extends w v
              /\ match r with
                 | Ok _ => Forall healthy (since w v)
                 | Raise e =>
                     exists pre x lg,
                       since w v = pre ++ [x] /\ failed_with e x
                       /\ Forall healthy pre
                       /\ logged v = lg ++ [(ERROR, AwsApiError (str e))]
                 end)).
  - intros g v r1 v1 [Hext Hok] Hrun.
    destruct (reconcile_Managed _ _ _ _ _ Hrun) as [op [_ [_ Hm]]].
    pose proof (Managed_extends _ _ _ _ _ Hm) as Hstep.
    split; [now apply extends_trans with v|].
    destruct (Managed_health _ _ _ _ _ Hm) as [seg [Hseg Hcase]].
    rewrite (since_extend w v v1 seg Hext Hseg).
    destruct r1 as [[]|e].
    + apply Forall_app. now split.
    + destruct Hcase as [pre [x [-> [Hx [Hpre Hlog]]]]].
      exists (since w v ++ pre), x, (logged v).
      rewrite app_assoc. repeat split; auto. apply Forall_app. now split.
  - split; [apply extends_refl|]. rewrite since_self. constructor.
Qed.

Lemma since_entering (w w' : World) : since (entering w) w' = since w w'.
Proof. reflexivity. Qed.

(** X8.  A decision cycle never raises.  It answers 200 with the target
    it selected and a rate exactly when no fleet call failed; otherwise it
    answers 500 with the text of the error, and then the failed exchange
    is the last one of the cycle (tiers after it are not contacted, calls
    already made are not undone) and the error has been logged twice,
    once by the actuator and once by the handler.  Which number the rate
    of a success body is, is left open here: it is the rounding of a
    float. *)
Theorem X8_cycle_always_answers (w : World) :
  let w' := snd (handle_request w) in
  (exists rate : Q,
      fst (handle_request w) = Ok (Success (cycle_target w) rate, 200)
      /\ Forall healthy (since w w'))
  \/ (exists e pre x lg,
        fst (handle_request w) = Ok (Failed (str e), 500)
        /\ since w w' = pre ++ [x]
        /\ failed_with e x
        /\ Forall healthy pre
        /\ logged w' = lg ++ [(ERROR, AwsApiError (str e));
                              (ERROR, RequestHandlingFailed (str e))]).
Proof.
  cbn zeta. rewrite handle_request_run.
  destruct (for_each INSTANCE_GROUPS (reconcile (cycle_target w)) (entering w))
    as [[[]|e] w'] eqn:Hloop;
    destruct (loop_health _ _ _ _ _ Hloop) as [_ Hcase]; cbn [fst snd].
  - left. exists (round (cycle_rate w) 2).
    split; [reflexivity|]. now rewrite <- since_entering.
  - right. destruct Hcase as [pre [x [lg [Hs [Hx [Hpre Hlog]]]]]].
    exists e, pre, x, lg. repeat split; auto.
    cbn [after logged]. rewrite Hlog. now rewrite <- app_assoc.
Qed.

Lemma filter_one {A} (f : A -> bool) (l : list A) (x : A) :
  filter f (l ++ [x]) = filter f l ++ (if f x then [x] else []).
Proof. now rewrite filter_app. Qed.

(** X9.  Every traffic event is recorded, whatever the cycle then
    answers, 200 or 500: the window after the cycle is the old window
    pruned against the cycle's second clock reading, followed by the new
    event (unless more than the window length passed between the two
    readings).  It has at most one entry more than before. *)
Theorem X9_event_recorded_even_on_failure (w : World) :
  let event := mkEntry (clock w (ticks w)) in
  let now := clock w (S (ticks w)) in
  let w' := snd (handle_request w) in
  REQUEST_LOG w'
  = prune now (REQUEST_LOG w)
    ++ (if age now event <=? window_length then [event] else [])
  /\ (List.length (REQUEST_LOG w') <= S (List.length (REQUEST_LOG w)))%nat.
Proof.
  cbn zeta. destruct (handle_request_leaves w) as [Hlog _].
  assert (E : REQUEST_LOG (snd (handle_request w))
              = prune (clock w (S (ticks w))) (REQUEST_LOG w)
                ++ (if age (clock w (S (ticks w))) (mkEntry (clock w (ticks w)))
                       <=? window_length
                    then [mkEntry (clock w (ticks w))] else [])).
  { rewrite Hlog. unfold entering. cbn [REQUEST_LOG]. unfold prune.
    now rewrite filter_one, in_window_age. }
  split; [exact E|]. rewrite E, length_app.
  pose proof (filter_length_le (in_window (clock w (S (ticks w)))) (REQUEST_LOG w)).
  unfold prune. destruct (_ <=? _); cbn [List.length]; lia.
Qed.

Lemma for_each_invariant_in {A} (P : Result unit -> World -> Prop)
      (body : A -> M unit) (xs : list A) :
  (forall x w r w', In x xs -> P (Ok tt) w -> body x w = (r, w') -> P r w') ->
  forall (w : World) r w',
    P (Ok tt) w -> for_each xs body w = (r, w') -> P r w'.
Proof.
  induction xs as [|x xs IH]; intros Hbody w r w' HP; cbn [for_each]; run.
  - intros H. injection H as <- <-. exact HP.
  - destruct (body x w) as [[[]|e] w1] eqn:Hx.
    + apply IH.
      * intros y v r1 v1 Hy. apply Hbody. now right.
      * exact (Hbody _ _ _ _ (or_introl eq_refl) HP Hx).
    + intros H. injection H as <- <-.
      exact (Hbody _ _ _ _ (or_introl eq_refl) HP Hx).
Qed.

(** The requests of one run of the actuator: the describe, then at most
    the call the operation stands for. *)
Lemma Managed_requests operation instance_ids w r w' :
  Managed operation instance_ids w r w' ->
  exists seg,
    history w' = history w ++ seg
    /\ Forall (fun x => request x = DescribeInstances instance_ids
                        \/ action_of operation instance_ids = Some (request x))
              seg.
Proof.
  intros [e0 He|s Hs Hd|s t Hs Hn Hl Hc|s k a rs Hs Hn Hg Ha Hr
         |s k a e0 Hs Hn Hg Ha Hr|s k Hs Hn Hg Ha];
    eexists; (split; [reflexivity|]);
    repeat (apply Forall_cons || apply Forall_nil);
    first [now left | now right].
Qed.

(** X10.  Every call a decision cycle makes is addressed to the instances
    of a configured group; every start call goes to the group the selector
    chose and every stop call to another group.  The cycle never starts a
    group that is not its target and never stops its target. *)
Theorem X10_cycle_addresses_its_target (w : World) :
  In (cycle_target w) (map fst INSTANCE_GROUPS)
  /\ Forall (addressed (cycle_target w)) (since w (snd (handle_request w))).
Proof.
  split.
  { unfold cycle_target.
    destruct (choose_cases (cycle_rate w)) as [[-> _]|[[-> _]|[-> _]]];
      cbn; auto. }
  assert (Hloop : forall r w',
             for_each INSTANCE_GROUPS (reconcile (cycle_target w)) (entering w)
             = (r, w') ->
             extends (entering w) w'
             /\ Forall (addressed (cycle_target w)) (since (entering w) w')).
  { intros r w' Hrun.
    refine (for_each_invariant_in
              (fun _ v => extends (entering w) v
                          /\ Forall (addressed (cycle_target w))
                                    (since (entering w) v))
              _ _ _ _ _ _ _ Hrun).
    - intros [group cfg] v r1 v1 Hin [Hext Hall] Hstep1.
      destruct (reconcile_Managed _ _ _ _ _ Hstep1) as [op [Hop [Htg Hm]]].
      cbn [fst snd] in Htg, Hm.
      pose proof (Managed_extends _ _ _ _ _ Hm) as Hstep.
      split; [now apply extends_trans with v|].
      destruct (Managed_requests _ _ _ _ _ Hm) as [seg [Hseg Hreq]].
      rewrite (since_extend _ v v1 seg Hext Hseg).
      apply Forall_app. split; [assumption|].
      apply Forall_forall. intros x Hx. rewrite Forall_forall in Hreq.
      exists group, cfg. split; [assumption|].
      destruct (Hreq x Hx) as [-> | Ha]; [reflexivity|].
      unfold action_of in Ha. destruct Hop as [-> | ->]; cbn in Ha;
        injection Ha as <-; split; try reflexivity.
      + now apply Htg.
      + intros E. apply Htg in E. discriminate E.
    - split; [apply extends_refl|]. rewrite since_self. constructor. }
  rewrite handle_request_run.
  destruct (for_each INSTANCE_GROUPS (reconcile (cycle_target w)) (entering w))
    as [[[]|e] w'] eqn:Hrun; cbn [snd];
    destruct (Hloop _ _ eq_refl) as [_ Hall]; exact Hall.
Qed.

(** The size of one run of the actuator. *)
Lemma Managed_size operation instance_ids w r w' :
  Managed operation instance_ids w r w' ->
  exists seg,
    history w' = history w ++ seg
    /\ (1 <= List.length seg <= 2)%nat
    /\ (List.length (filter is_transition seg) <= 1)%nat
    /\ (ticks w <= ticks w' <= ticks w + 2)%nat.
Proof.
  intros [e0 He|s Hs Hd|s t Hs Hn Hl Hc|s k a rs Hs Hn Hg Ha Hr
         |s k a e0 Hs Hn Hg Ha Hr|s k Hs Hn Hg Ha];
    eexists; (split; [reflexivity|]);
    cbn [List.length filter describe_exchange is_transition request after ticks];
    try rewrite (transition_call _ _ _ (Response rs) Ha);
    try rewrite (transition_call _ _ _ (Fault e0) Ha);
    cbn [List.length];
    try (assert (ticks w <= k <= S (ticks w))%nat by (destruct Hg; lia));
    repeat split; lia.
Qed.

Lemma loop_size target_group groups :
  forall w r w',
    for_each groups (reconcile target_group) w = (r, w') ->
    exists seg,
      history w' = history w ++ seg
      /\ (List.length seg <= 2 * List.length groups)%nat
      /\ (List.length (filter is_transition seg) <= List.length groups)%nat
      /\ (ticks w <= ticks w' <= ticks w + 2 * List.length groups)%nat
      /\ (groups <> [] -> (1 <= List.length seg)%nat).
Proof.
  induction groups as [|g groups IH]; intros w r w'; cbn [for_each]; run.
  - intros H. injection H as <- <-. exists []. rewrite app_nil_r. cbn.
    repeat split; try lia. congruence.
  - destruct (reconcile target_group g w) as [r1 w1] eqn:Hg.
    destruct (reconcile_Managed _ _ _ _ _ Hg) as [op [_ [_ Hm]]].
    destruct (Managed_size _ _ _ _ _ Hm) as [seg1 [H1 [L1 [T1 K1]]]].
    destruct r1 as [[]|e].
    + intros Hrest. destruct (IH _ _ _ Hrest) as [seg2 [H2 [L2 [T2 [K2 _]]]]].
      exists (seg1 ++ seg2). rewrite H2, H1, <- app_assoc.
      rewrite filter_app, !length_app. cbn [List.length].
      repeat split; try lia.
    + intros H. injection H as <- <-. exists seg1. cbn [List.length].
      repeat split; try assumption; lia.
Qed.

(** X11.  One traffic event costs at most six fleet calls, a describe and
    at most one start or stop for each of the three groups, and at least
    the first describe; it reads the clock at least twice and at most
    eight times. *)
Theorem X11_cycle_cost_is_bounded (w : World) :
  let w' := snd (handle_request w) in
  (1 <= List.length (since w w') <= 6)%nat
  /\ (transitions_issued w w' <= 3)%nat
  /\ (ticks w + 2 <= ticks w' <= ticks w + 8)%nat.
Proof.
  cbn zeta. rewrite handle_request_run.
  destruct (for_each INSTANCE_GROUPS (reconcile (cycle_target w)) (entering w))
    as [r w'] eqn:Hloop.
  destruct (loop_size _ _ _ _ _ Hloop) as [seg [Hseg [L [T [K N]]]]].
  assert (Hne : INSTANCE_GROUPS <> []) by discriminate.
  specialize (N Hne). cbn [List.length INSTANCE_GROUPS entering ticks history] in *.
  assert (Hs : forall v, history v = history w' -> since w v = seg).
  { intros v Hv. apply since_app. now rewrite Hv. }
  unfold transitions_issued.
  destruct r as [[]|e]; cbn [snd];
    repeat match goal with
           | |- context [since w ?v] => rewrite (Hs v eq_refl)
           end;
    cbn [after ticks]; repeat split; lia.
Qed.

(** ** A fleet already in place *)

Lemma wanted_is_desired (target_group group : string) :
  desired (if (group =? target_group)%string then "start" else "stop")%string
          (wanted_state target_group group).
Proof.
  unfold wanted_state. destruct (group =? target_group)%string; [left|right];
    now split.
Qed.

Lemma loop_settled (target_group : string) (groups : list (string * InstanceGroup)) :
  forall w : World,
    (forall group x, In (group, x) (polls (ec2_api w) (history w) groups) ->
                     state_of (reply x) = Ok (wanted_state target_group group)) ->
    for_each groups (reconcile target_group) w
    = (Ok tt,
       after w (LAST_SCALING_TIME w) (ticks w)
             (history w ++ map snd (polls (ec2_api w) (history w) groups))
             (map (already_message target_group) groups)).
Proof.
  induction groups as [|[group cfg] groups IH]; intros w Hall.
  - cbn. now rewrite after_same.
  - cbn [for_each polls map snd]. run.
    assert (Hobs : observed_state w (ids cfg) = Ok (wanted_state target_group group)).
    { apply (Hall group). now left. }
    unfold reconcile.
    assert (Hrun : (if (group =? target_group)%string
                    then manage_instances "start" (ids cfg)
                    else manage_instances "stop" (ids cfg)) w
                   = manage_instances
                       (if (group =? target_group)%string then "start" else "stop")
                       (ids cfg) w)
      by now destruct (group =? target_group)%string.
    rewrite Hrun.
    rewrite (manage_instances_already _ _ _ _ Hobs (wanted_is_desired _ _)).
    rewrite IH.
    + cbn [after ec2_api history LAST_SCALING_TIME ticks].
      rewrite after_after. unfold describe_exchange.
      rewrite <- app_assoc. reflexivity.
    + intros g x Hin. apply (Hall g). right. exact Hin.
Qed.

(** X12.  When the fleet already shows the selected group running and the
    other groups stopped, a decision cycle only looks: it makes the three
    describe calls and no start or stop, leaves [LAST_SCALING_TIME]
    alone, reads the clock just twice, logs for each group that it is
    already in its state, and answers 200 with the selected group. *)
Theorem X12_settled_fleet_is_left_alone (w : World) :
  let target_group := cycle_target w in
  let ps := polls (ec2_api w) (history w) INSTANCE_GROUPS in
  let w' := snd (handle_request w) in
  (forall group x, In (group, x) ps ->
                   state_of (reply x) = Ok (wanted_state target_group group)) ->
  (exists rate : Q,
      fst (handle_request w) = Ok (Success target_group rate, 200))
  /\ since w w' = map snd ps
  /\ transitions_issued w w' = 0%nat
  /\ LAST_SCALING_TIME w' = LAST_SCALING_TIME w
  /\ ticks w' = S (S (ticks w))
  /\ logged w' = logged w ++ map (already_message target_group) INSTANCE_GROUPS.
Proof.
  cbn zeta. intros Hall. rewrite handle_request_run.
  rewrite (loop_settled (cycle_target w) INSTANCE_GROUPS (entering w) Hall).
  cbn [fst snd entering after LAST_SCALING_TIME ticks logged history ec2_api].
  unfold transitions_issued.
  rewrite (since_app w _ (map snd (polls (ec2_api w) (history w) INSTANCE_GROUPS)))
    by reflexivity.
  rewrite polls_are_describes.
  split; [exists (round (cycle_rate w) 2); reflexivity|].
  repeat split; reflexivity.
Qed.

Lemma X12_settled_fleet_is_left_alone_witness :
  (exists rate : Q,
      fst (handle_request settled_world) = Ok (Success "small" rate, 200))
  /\ transitions_issued settled_world (snd (handle_request settled_world)) = 0%nat.
Proof.
  assert (H : forall group x,
             In (group, x) (polls (ec2_api settled_world) (history settled_world)
                                  INSTANCE_GROUPS) ->
             state_of (reply x) = Ok (wanted_state (cycle_target settled_world) group)).
  { intros group x [E|[E|[E|[]]]]; injection E as <- <-; reflexivity. }
  destruct (X12_settled_fleet_is_left_alone settled_world H) as [H1 [_ [H2 _]]].
  split; assumption.
Defined.

(** ** The status query, in full *)

(** X13.  A status query is not counted as traffic: it reads the clock
    once and prunes the window against that reading without adding to it.
    It never raises: it answers with the groups whose fetch said running
    and a rate.  It issues no start and no stop, and it logs one error for
    each group whose fetch failed and nothing else.  Which number the rate
    of the body is, is left open here: it is the rounding of a float. *)
Theorem X13_status_query_effects (w : World) :
  let ps := polls (ec2_api w) (history w) INSTANCE_GROUPS in
  let kept := prune (clock w (ticks w)) (REQUEST_LOG w) in
  let w' := snd (get_metrics w) in
  (exists rate : Q,
      fst (get_metrics w)
      = Ok (Metrics (map fst (filter reports_running ps)) rate))
  /\ REQUEST_LOG w' = kept
  /\ (List.length (REQUEST_LOG w') <= List.length (REQUEST_LOG w))%nat
  /\ ticks w' = S (ticks w)
  /\ transitions_issued w w' = 0%nat
  /\ logged w' = logged w ++ flat_map poll_message ps.
Proof.
  cbn zeta. unfold get_metrics. run. rewrite status_checks_run. cbn iota beta.
  rewrite calculate_arrival_rate_run. cbn iota beta. run.
  cbn [pruned after REQUEST_LOG ticks logged history app].
  unfold transitions_issued.
  rewrite (since_app w _ (map snd (polls (ec2_api w) (history w) INSTANCE_GROUPS)))
    by reflexivity.
  rewrite polls_are_describes.
  split; [eexists; reflexivity|].
  repeat split; try reflexivity. apply filter_length_le.
Qed.

(** ** The cooldown timestamp over a run *)

Lemma performed_quiet (w0 w w' : World) (seg : list Exchange) :
  extends w0 w -> history w' = history w ++ seg ->
  filter is_transition seg = [] ->
  transitions_performed w0 w' = transitions_performed w0 w.
Proof.
  intros Hext Hh Hseg. unfold transitions_performed.
  rewrite (since_extend w0 w w' seg Hext Hh), filter_app, length_app.
  assert (Hnone : filter (fun x => is_transition x && succeeded x) seg = []).
  { clear - Hseg. induction seg as [|x seg IH]; [reflexivity|].
    cbn [filter] in *. destruct (is_transition x); [discriminate|].
    cbn [andb]. now apply IH. }
  rewrite Hnone. cbn. lia.
Qed.

Lemma Stamped_quiet (w0 w w' : World) (seg : list Exchange) :
  Stamped w0 w -> extends w w' -> history w' = history w ++ seg ->
  filter is_transition seg = [] ->
  LAST_SCALING_TIME w' = LAST_SCALING_TIME w -> Stamped w0 w'.
Proof.
  intros [Hext [Hz Hp]] Hstep Hh Hseg Hl.
  split; [now apply extends_trans with w|].
  rewrite (performed_quiet w0 w w' seg Hext Hh Hseg), Hl.
  split; [exact Hz|]. intros H.
  apply (stamped_later w0 w w'); auto. exact (more_ticks _ _ Hstep).
Qed.

(** A start or stop reconciliation moves the timestamp exactly when its
    call is accepted. *)
Lemma Stamped_step (w0 w : World) operation instance_ids r w' :
  (operation = "start" \/ operation = "stop")%string ->
  Stamped w0 w -> Managed operation instance_ids w r w' -> Stamped w0 w'.
Proof.
  intros Hop HS Hm. pose proof HS as [Hext [Hz Hp]].
  pose proof (Managed_extends _ _ _ _ _ Hm) as Hstep.
  destruct Hm as [e0 He|s Hs Hd|s t Hs Hn Hl Hc|s k a rs Hs Hn Hg Ha Hr
                 |s k a e0 Hs Hn Hg Ha Hr|s k Hs Hn Hg Ha].
  - apply (Stamped_quiet w0 w _ [describe_exchange w instance_ids]); auto.
  - apply (Stamped_quiet w0 w _ [describe_exchange w instance_ids]); auto.
  - apply (Stamped_quiet w0 w _ [describe_exchange w instance_ids]); auto.
  - split; [now apply extends_trans with w|].
    unfold transitions_performed.
    erewrite (since_extend w0 w) by (try exact Hext; reflexivity).
    rewrite filter_app, length_app.
    cbn [filter describe_exchange is_transition succeeded request reply andb].
    rewrite (transition_call _ _ _ (Response rs) Ha). cbn [andb List.length].
    split; [intros H; exfalso; lia|]. intros _.
    apply (stamped_by_step w0 w _ k); auto.
    pose proof (gate_ticks _ _ Hg). cbn. lia.
  - split; [now apply extends_trans with w|].
    unfold transitions_performed.
    erewrite (since_extend w0 w) by (try exact Hext; reflexivity).
    rewrite filter_app, length_app.
    cbn [filter describe_exchange is_transition succeeded request reply andb].
    rewrite (transition_call _ _ _ (Fault e0) Ha). cbn [andb List.length].
    rewrite Nat.add_0_r. fold (transitions_performed w0 w).
    split; [exact Hz|]. intros H.
    apply (stamped_later w0 w); auto. exact (more_ticks _ _ Hstep).
  - exfalso. exact (action_of_known _ instance_ids Hop Ha).
Qed.

Lemma handle_request_Stamped (w0 w : World) :
  Stamped w0 w -> Stamped w0 (snd (handle_request w)).
Proof.
  intros HS. rewrite handle_request_run.
  assert (HE : Stamped w0 (entering w)).
  { apply (Stamped_quiet w0 w _ []); auto with frame. cbn. now rewrite app_nil_r. }
  assert (Hloop : forall r w',
             for_each INSTANCE_GROUPS (reconcile (cycle_target w)) (entering w)
             = (r, w') -> Stamped w0 w').
  { intros r w' Hrun.
    refine (for_each_invariant (fun _ v => Stamped w0 v) _ _ _ _ _ _ HE Hrun).
    intros g v r1 v1 Hv Hstep.
    destruct (reconcile_Managed _ _ _ _ _ Hstep) as [op [Hop [_ Hm]]].
    exact (Stamped_step _ _ _ _ _ _ Hop Hv Hm). }
  destruct (for_each INSTANCE_GROUPS (reconcile (cycle_target w)) (entering w))
    as [[[]|e] w'] eqn:Hrun; cbn [snd]; pose proof (Hloop _ _ eq_refl) as HL;
    [exact HL|].
  apply (Stamped_quiet w0 w' _ []); auto with frame. cbn. now rewrite app_nil_r.
Qed.

Lemma get_metrics_Stamped (w0 w : World) :
  Stamped w0 w -> Stamped w0 (snd (get_metrics w)).
Proof.
  intros HS. unfold get_metrics. run.
  rewrite status_checks_run. cbn iota beta.
  rewrite calculate_arrival_rate_run. cbn iota beta. run.
  apply (Stamped_quiet w0 w _
           (map snd (polls (ec2_api w) (history w) INSTANCE_GROUPS)) HS).
  - split; try reflexivity; cbn; [lia|]. eexists; reflexivity.
  - reflexivity.
  - apply polls_are_describes.
  - reflexivity.
Qed.

(** X14.  Over any run of traffic events and status queries the cooldown
    timestamp moves only with accepted transitions: while no start or
    stop has been accepted it is what it was at the start (skips, refused
    calls and failed describes never touch it), and once one has been
    accepted it is a clock reading made during the run. *)
Theorem X14_timestamp_follows_transitions (routes : list Route) (w : World) :
  let w' := serve_all routes w in
  (transitions_performed w w' = 0%nat ->
   LAST_SCALING_TIME w' = LAST_SCALING_TIME w)
  /\ ((0 < transitions_performed w w')%nat ->
      exists k : nat,
        (ticks w <= k < ticks w')%nat
        /\ LAST_SCALING_TIME w' = Some (clock w k)).
Proof.
  cbn zeta.
  assert (H : forall v, Stamped w v -> Stamped w (serve_all routes v)).
  { induction routes as [|route routes IH]; intros v Hv; [exact Hv|].
    cbn [serve_all fold_left]. apply IH. destruct route; cbn [serve].
    - now apply handle_request_Stamped.
    - now apply get_metrics_Stamped. }
  assert (H0 : Stamped w w).
  { split; [apply extends_refl|]. unfold transitions_performed.
    rewrite since_self. cbn. split; [reflexivity|lia]. }
  destruct (H w H0) as [_ [Hz Hp]]. split; [exact Hz|exact Hp].
Qed.

(** ** From requests to tiers *)

Lemma rate_against (n s c : Z) :
  0 < s ->
  ((inject_Z n / total_seconds s <= inject_Z c)%Q
   <-> n * microseconds_per_second <= c * s)
  /\ ((inject_Z c < inject_Z n / total_seconds s)%Q
      <-> c * s < n * microseconds_per_second).
Proof.
  intros Hs. destruct s as [|p|p]; try lia.
  unfold total_seconds, microseconds_per_second, Qle, Qlt, Qdiv, Qmult, Qinv.
  cbn [Qnum Qden inject_Z]. cbn. split; split; lia.
Qed.

Lemma choose_medium_iff (r : Q) :
  choose_target_group r = "medium"%string
  <-> (low_cutover < r)%Q /\ (r <= high_cutover)%Q.
Proof.
  split; [|intros [H1 H2]; now apply choose_medium].
  destruct (choose_cases r) as [[E _]|[[_ H]|[E _]]]; rewrite ?E;
    try discriminate. intros _. exact H.
Qed.

Lemma choose_large_iff (r : Q) :
  choose_target_group r = "large"%string <-> (high_cutover < r)%Q.
Proof.
  split; [|apply choose_large].
  destruct (choose_cases r) as [[E _]|[[E _]|[_ H]]]; rewrite ?E;
    try discriminate. intros _. exact H.
Qed.

(** X15.  Estimator and selector together: when a cycle answers with
    success and its window holds [n >= 2] entries over a positive span,
    the target is small exactly when [n] requests took at least [n / 3]
    seconds (the span times [T1 - H] covers [n]), large exactly when they
    took less than [n / 8] seconds (the span times [T2 - H] does not),
    and medium in between. *)
Theorem X15_target_by_count_and_span
        (w : World) (target_group : string) (rate : Q) :
  let kept := REQUEST_LOG (snd (handle_request w)) in
  let n := Z.of_nat (List.length kept) in
  fst (handle_request w) = Ok (Success target_group rate, 200) ->
  (2 <= List.length kept)%nat ->
  0 < span kept ->
  (target_group = "small"%string
   <-> n * microseconds_per_second <= (THRESHOLD_T1 - HYSTERESIS) * span kept)
  /\ (target_group = "medium"%string
      <-> (THRESHOLD_T1 - HYSTERESIS) * span kept < n * microseconds_per_second
          /\ n * microseconds_per_second <= (THRESHOLD_T2 - HYSTERESIS) * span kept)
  /\ (target_group = "large"%string
      <-> (THRESHOLD_T2 - HYSTERESIS) * span kept < n * microseconds_per_second).
Proof.
  cbn zeta. intros Hans Hn Hs.
  destruct (handle_request_outcomes _ _ _ Hans) as [-> _].
  destruct (handle_request_leaves w) as [Hlog _]. rewrite Hlog in *.
  set (kept := REQUEST_LOG (entering w)) in *.
  assert (Hrate : cycle_rate w
                  = (inject_Z (Z.of_nat (List.length kept))
                     / total_seconds (span kept))%Q).
  { unfold cycle_rate. fold kept. unfold estimate.
    apply Nat.ltb_ge in Hn. rewrite Hn.
    apply Z.ltb_lt in Hs. now rewrite Hs. }
  unfold cycle_target. rewrite Hrate.
  rewrite choose_small_iff, choose_medium_iff, choose_large_iff.
  unfold low_cutover, high_cutover.
  destruct (rate_against (Z.of_nat (List.length kept)) (span kept)
                         (THRESHOLD_T1 - HYSTERESIS) Hs) as [L1 G1].
  destruct (rate_against (Z.of_nat (List.length kept)) (span kept)
                         (THRESHOLD_T2 - HYSTERESIS) Hs) as [L2 G2].
  rewrite L1, G1, L2, G2. repeat split; tauto.
Qed.

Lemma X15_target_by_count_and_span_witness :
  fst (handle_request (snd (handle_request (snd (handle_request burst_world)))))
  = Ok (Success "medium" (500 # 100), 200)
  /\ (THRESHOLD_T1 - HYSTERESIS) * 600000 < 3 * microseconds_per_second
  /\ 3 * microseconds_per_second <= (THRESHOLD_T2 - HYSTERESIS) * 600000.
Proof.
  assert (Hans : fst (handle_request (snd (handle_request (snd (handle_request burst_world)))))
                 = Ok (Success "medium" (500 # 100), 200))
    by (vm_compute; reflexivity).
  assert (Hlog : REQUEST_LOG (snd (handle_request (snd (handle_request
                    (snd (handle_request burst_world))))))
                 = [mkEntry 0; mkEntry 200000; mkEntry 600000])
    by (vm_compute; reflexivity).
  split; [exact Hans|].
  pose proof (X15_target_by_count_and_span _ _ _ Hans) as H.
  cbn zeta in H. rewrite Hlog in H.
  destruct H as [_ [Hm _]]; [cbn; lia|cbn; lia|].
  exact (proj1 Hm eq_refl).
Defined.
